(** * creme: k-nearest-neighbours regression over a sliding window, and the
      count vectorizer

    A shallow embedding of [creme/neighbors/knn_regressor.py] and of
    [creme/feature_extraction/vectorize.py].

    Conventions of the embedding.
    - Python exceptions are values of [exn]; a call that may raise returns a
      [res].
    - Mutable state (the attributes of [self], the module-level order of
      feature names) is threaded explicitly by the monad [M].
    - A NumPy [float64] is a [float64]: an exact rational, or one of the three
      IEEE special values.  Rounding and the sign of zero are abstracted away:
      finite arithmetic is exact. *)

From Stdlib Require Import String Ascii List Bool Arith ZArith QArith Qabs Lia.
From Stdlib Require Import Permutation Sorted Lqa.
Import ListNotations.

Open Scope string_scope.
Open Scope list_scope.
Open Scope Q_scope.

(** ** Exceptions and results *)

Inductive exn : Type :=
| ValueError (msg : string)
| AttributeError (attr : string)
| KeyError (key : string)
| TypeError (msg : string)
| IndexError (index : nat)
| ZeroDivisionError (msg : string).

Inductive res (A : Type) : Type :=
| Ok (a : A)
| Raise (e : exn).

Arguments Ok {A} a.
Arguments Raise {A} e.

(** ** The state-and-exception monad

    A computation reads and writes a state [S] and either returns or raises.
    What was written before an exception stays written, as in Python. *)

Definition M (S A : Type) : Type := S -> res A * S.

Definition ret {S A} (a : A) : M S A := fun s => (Ok a, s).

Definition raise {S A} (e : exn) : M S A := fun s => (Raise e, s).

Definition bind {S A B} (m : M S A) (k : A -> M S B) : M S B :=
  fun s =>
    match m s with
    | (Ok a, s') => k a s'
    | (Raise e, s') => (Raise e, s')
    end.

Definition gets {S A} (f : S -> A) : M S A := fun s => (Ok (f s), s).

Definition modify {S} (f : S -> S) : M S unit := fun s => (Ok tt, f s).

Definition lift {S A} (r : res A) : M S A := fun s => (r, s).

Declare Scope monad_scope.
Delimit Scope monad_scope with monad.
Notation "x <- m ;; k" := (bind m (fun x => k))
  (at level 61, m at next level, right associativity) : monad_scope.
Notation "' pat <- m ;; k" := (bind m (fun x => match x with pat => k end))
  (at level 61, pat pattern, m at next level, right associativity) : monad_scope.
Notation "m ;;; k" := (bind m (fun _ => k))
  (at level 61, right associativity) : monad_scope.
Open Scope monad_scope.

Fixpoint mapM {S A B} (f : A -> M S B) (l : list A) : M S (list B) :=
  match l with
  | [] => ret []
  | a :: l' => b <- f a ;; bs <- mapM f l' ;; ret (b :: bs)
  end.

(** ** NumPy floats *)

Inductive float64 : Type :=
| Fin (q : Q)
| PInf
| NInf
| NaN.

Definition is_fin (x : float64) : bool :=
  match x with Fin _ => true | _ => false end.

(** An infinity or not-a-number. *)
Definition nonfin (x : float64) : Prop := is_fin x = false.

Definition fopp (x : float64) : float64 :=
  match x with
  | Fin a => Fin (- a)
  | PInf => NInf
  | NInf => PInf
  | NaN => NaN
  end.

Definition fadd (x y : float64) : float64 :=
  match x, y with
  | NaN, _ | _, NaN => NaN
  | Fin a, Fin b => Fin (a + b)
  | PInf, NInf | NInf, PInf => NaN
  | PInf, _ | _, PInf => PInf
  | NInf, _ | _, NInf => NInf
  end.

Definition fsub (x y : float64) : float64 := fadd x (fopp y).

(** The sign of a rational: [Lt], [Eq] or [Gt] as it is below, at or above 0. *)
Definition Qsign (a : Q) : comparison := a ?= 0.

Definition inf_of_sign (c : comparison) : float64 :=
  match c with Gt => PInf | Lt => NInf | Eq => NaN end.

Definition fsign (x : float64) : option comparison :=
  match x with
  | Fin a => Some (Qsign a)
  | PInf => Some Gt
  | NInf => Some Lt
  | NaN => None
  end.

Definition sign_mul (c d : comparison) : comparison :=
  match c, d with
  | Eq, _ | _, Eq => Eq
  | Gt, Gt | Lt, Lt => Gt
  | _, _ => Lt
  end.

Definition fmul (x y : float64) : float64 :=
  match x, y with
  | Fin a, Fin b => Fin (a * b)
  | _, _ =>
      match fsign x, fsign y with
      | Some c, Some d => inf_of_sign (sign_mul c d)
      | _, _ => NaN
      end
  end.

(** Division follows NumPy's scalar division under its default error state:
    a division by zero warns and returns an infinity, or not-a-number for
    [0 / 0]; it does not raise. *)
Definition fdiv (x y : float64) : float64 :=
  match x, y with
  | NaN, _ | _, NaN => NaN
  | Fin a, Fin b =>
      if Qeq_bool b 0 then inf_of_sign (Qsign a) else Fin (a / b)
  | Fin _, _ => Fin 0
  | _, Fin b =>
      match fsign x with
      | Some c => inf_of_sign (sign_mul c (match Qsign b with Lt => Lt | _ => Gt end))
      | None => NaN
      end
  | _, _ => NaN
  end.

(** [ndarray.sum()] *)
Definition fsum (l : list float64) : float64 := fold_left fadd l (Fin 0).

Definition Qsum (l : list Q) : Q := fold_left Qplus l 0.

(** Running a computation on one component of a larger state. *)
Definition zoom {S T A} (proj : S -> T) (upd : T -> S -> S) (m : M T A) : M S A :=
  fun s => let '(r, t) := m (proj s) in (r, upd t s).

(** ** Vectors and named features *)

Definition vec : Type := list Q.

(** A Python [dict] from feature names to numbers, in insertion order. *)
Definition dict : Type := list (string * Q).

Definition keys (x : dict) : list string := map fst x.

(** [x.get(name, 0)] *)
Fixpoint dict_get (x : dict) (name : string) : Q :=
  match x with
  | [] => 0
  | (k, v) :: x' => if String.eqb k name then v else dict_get x' name
  end.

Definition mem (name : string) (names : list string) : bool :=
  existsb (String.eqb name) names.

(** ** [creme.utils] *)
Module utils.

(** Modelled from the spec: one step of the registration [dict2numpy] does
    (section 4.1); a name not seen before goes to the end of the order. *)
Definition register_one (names : list string) (name : string) : list string :=
  if mem name names then names else names ++ [name].

(** Modelled from the spec: the registration of the names of [x], in the
    order [x] has them. *)
Definition register (names : list string) (x : dict) : list string :=
  fold_left register_one (keys x) names.

(** Modelled from the spec: [dict2numpy] is imported from [creme.utils], which
    is not among the sources.  Section 4.1 (Feature Vector Codec): every name
    of [x] not seen before is registered at the end of a process-wide
    ordering; the output has one component per registered name, in
    registration order, a name absent from [x] giving 0.  The state is that
    ordering. *)
Definition dict2numpy (x : dict) : M (list string) vec :=
  modify (fun names => register names x) ;;;
  names <- gets (fun names => names) ;;
  ret (map (dict_get x) names).

End utils.

(** ** The NumPy reductions [predict_one] calls *)
Module np.

Fixpoint insert_sorted (x : Q) (l : list Q) : list Q :=
  match l with
  | [] => [x]
  | y :: l' => if Qle_bool x y then x :: y :: l' else y :: insert_sorted x l'
  end.

Definition sort (l : list Q) : list Q := fold_right insert_sorted [] l.

Definition of_nat (n : nat) : Q := inject_Z (Z.of_nat n).

(** [np.mean(a)]: the sum over the count; not-a-number on an empty list.  On
    finite values the arithmetic is that of the rationals: the result is not
    rounded and does not overflow, as a double would. *)
Definition mean (a : list Q) : float64 :=
  fdiv (fsum (map Fin a)) (Fin (of_nat (length a))).

(** [np.median(a)]: the middle of the sorted values, the mean of the two
    middle ones for an even count; not-a-number on an empty list. *)
Definition median (a : list Q) : float64 :=
  let s := sort a in
  let n := length s in
  if (n =? 0)%nat then NaN
  else if Nat.odd n then Fin (nth (n / 2) s 0)
  else mean [nth (n / 2 - 1) s 0; nth (n / 2) s 0].

Fixpoint zip_with {A B C} (f : A -> B -> C) (l : list A) (m : list B) : list C :=
  match l, m with
  | a :: l', b :: m' => f a b :: zip_with f l' m'
  | _, _ => []
  end.

Definition is_zero (x : float64) : bool :=
  match x with Fin q => Qeq_bool q 0 | _ => false end.

(** [np.average(a, weights=weights)] with [axis=None]: the shapes must agree,
    the weights must not sum to exactly zero, and the result is the weighted
    sum over the sum of the weights. *)
Definition average (a : list Q) (weights : list float64) : res float64 :=
  if negb (length a =? length weights)%nat then
    Raise (TypeError "Axis must be specified when shapes of a and weights differ.")
  else
    let scl := fsum weights in
    if is_zero scl then
      Raise (ZeroDivisionError "Weights sum to zero, can't be normalized")
    else Ok (fdiv (fsum (zip_with fmul (map Fin a) weights)) scl).

End np.

(** ** The sliding window *)
Module window.

(** Modelled from the spec: the class of [self.data_window] is not among the
    sources.  Section 3 (Sliding Window) and section 4.2 (Sliding Window
    Store): an insertion-ordered sequence of (vector, target) entries with a
    capacity fixed at construction. *)
Record Window : Type := mkWindow {
  capacity : Z;
  entries : list (vec * Q)
}.

(** Modelled from the spec: the window is created empty. *)
Definition empty (window_size : Z) : Window := mkWindow window_size [].

(** Modelled from the spec: [data_window.size], the current entry count. *)
Definition size (w : Window) : nat := length (entries w).

(** Modelled from the spec: [data_window.features_buffer], the stored
    vectors, oldest first (the snapshot of section 4.2). *)
Definition features_buffer (w : Window) : list vec := map fst (entries w).

(** Modelled from the spec: [data_window.targets_buffer], the stored targets,
    oldest first. *)
Definition targets_buffer (w : Window) : list Q := map snd (entries w).

(** Modelled from the spec: [add_one] appends the entry; if the resulting
    size exceeds the capacity it removes the single oldest entry. *)
Definition add_one (x_arr : vec) (y : Q) (w : Window) : Window :=
  let appended := entries w ++ [(x_arr, y)] in
  if (capacity w <? Z.of_nat (length appended))%Z
  then mkWindow (capacity w) (tl appended)
  else mkWindow (capacity w) appended.

End window.

(** ** The spatial index *)
Module index.

(** Modelled from the spec: the difference of two vectors.  A vector stored
    before a feature name was registered is shorter than one projected after:
    it counts as having 0 in the missing positions (section 3, Feature
    Vector). *)
Fixpoint vsub (a b : vec) : vec :=
  match a, b with
  | [], _ => map Qopp b
  | _, [] => a
  | x :: a', y :: b' => (x - y) :: vsub a' b'
  end.

(** Modelled from the spec: insertion into a list ranked by increasing
    distance; among equal distances the entry being inserted goes first. *)
Fixpoint insert_ranked (e : Q * nat) (l : list (Q * nat)) : list (Q * nat) :=
  match l with
  | [] => [e]
  | e' :: l' =>
      if Qle_bool (fst e) (fst e') then e :: e' :: l'
      else e' :: insert_ranked e l'
  end.

(** Modelled from the spec: the ranking of section 4.3, a stable sort.
    Entries at equal distance keep their order, which is the order of
    insertion into the window. *)
Definition rank (l : list (Q * nat)) : list (Q * nat) :=
  fold_right insert_ranked [] l.

Section Metric.

(** The Minkowski norm of order [p], [(sum_i |v_i|^p)^(1/p)].  It is computed
    by the numeric library and is irrational in general, so the index is
    parameterised by it. *)
Variable pnorm : Q -> vec -> Q.

(** Modelled from the spec: the distance from each stored vector to [x]. *)
Definition distances (p : Q) (X : list vec) (x : vec) : list Q :=
  map (fun v => pnorm p (vsub v x)) X.

(** Modelled from the spec: the index built by [_get_neighbors] is not among
    the sources.  Section 4.3 (Spatial Index): [query] returns the [k] nearest
    stored vectors (all of them when there are fewer than [k]), as the list of
    their distances and the list of their positions in the window, nearest
    first, equal distances by increasing insertion sequence number. *)
Definition query (p : Q) (X : list vec) (x : vec) (k : nat) : list Q * list nat :=
  let ranked := rank (combine (distances p X x) (seq 0 (length X))) in
  let nearest := firstn k ranked in
  (map fst nearest, map snd nearest).

End Metric.

(** The norm of order 1, the sum of the absolute values.  It is the one
    Minkowski norm that stays rational; on a vector with a single component
    every order gives the same value. *)
Definition norm1 (v : vec) : Q := Qsum (map Qabs v).

End index.

(** Sequencing of calls that may raise, outside any state. *)
Definition and_then {A B} (r : res A) (k : A -> res B) : res B :=
  match r with
  | Ok a => k a
  | Raise e => Raise e
  end.

(** ** [creme/neighbors/base_neighbors.py] *)
Module base_neighbors.

(** Modelled from the spec: the attributes the base class sets on [self],
    the configuration of section 3 and the window.  [predict_one] allows for a
    [data_window] that is [None]. *)
Record BaseNeighbors : Type := mkBaseNeighbors {
  n_neighbors : Z;
  max_window_size : Z;
  leaf_size : Z;
  p : Q;
  data_window : option window.Window
}.

(** Modelled from the spec: [BaseNeighbors.__init__] is not among the
    sources.  Section 4.5: construction validates [p >= 1],
    [max_window_size > 0], [n_neighbors > 0] and [leaf_size > 0], failing with
    a configuration error; section 3: the window is created empty. *)
Definition __init__ (n_neighbors max_window_size leaf_size : Z) (p : Q)
  : res BaseNeighbors :=
  if negb (0 <? n_neighbors)%Z then Raise (ValueError "Invalid n_neighbors")
  else if negb (0 <? max_window_size)%Z then Raise (ValueError "Invalid max_window_size")
  else if negb (0 <? leaf_size)%Z then Raise (ValueError "Invalid leaf_size")
  else if negb (Qle_bool 1 p) then Raise (ValueError "Invalid Minkowski p-norm value")
  else Ok (mkBaseNeighbors n_neighbors max_window_size leaf_size p
             (Some (window.empty max_window_size))).

End base_neighbors.

(** ** [creme/neighbors/knn_regressor.py] *)
Module knn_regressor.

Import base_neighbors.

Definition _MEAN : string := "mean".
Definition _MEDIAN : string := "median".
Definition _WEIGHTED_MEAN : string := "weighted_mean".

(** An instance: the attributes of the base class and [aggregation_method]. *)
Record KNNRegressor : Type := mkKNNRegressor {
  base : BaseNeighbors;
  aggregation_method : string
}.

(** [self.<name>] for a name that is not an attribute set by a constructor:
    the lookup falls through to the class, which defines the three
    constants, and raises for any other name. *)
Definition class_attr (name : string) : res string :=
  if String.eqb name "_MEAN" then Ok _MEAN
  else if String.eqb name "_MEDIAN" then Ok _MEDIAN
  else if String.eqb name "_WEIGHTED_MEAN" then Ok _WEIGHTED_MEAN
  else Raise (AttributeError name).

(** The text of the error, ['Invalid aggregation_method: {}.\nValid options
    are: {}'.format(...)]. *)
Definition invalid_message (aggregation_method : string) (valid : list string) : string :=
  ("Invalid aggregation_method: " ++ aggregation_method ++ ". Valid options are: "
   ++ String.concat ", " valid)%string.

(** [KNNRegressor.__init__].  The arguments of [format] are evaluated before
    [ValueError] is called, the elements of the set display from left to
    right. *)
Definition __init__ (n_neighbors max_window_size leaf_size : Z) (p : Q)
  (aggregation_method : string) : res KNNRegressor :=
  and_then (base_neighbors.__init__ n_neighbors max_window_size leaf_size p) (fun self =>
  and_then (class_attr "_MEAN") (fun c1 =>
  and_then (class_attr "_MEDIAN") (fun c2 =>
  and_then (class_attr "_WEIGHTED_MEAN") (fun c3 =>
  if negb (mem aggregation_method [c1; c2; c3]) then
    and_then (class_attr "_MEAN") (fun m1 =>
    and_then (class_attr "_MEDIAN") (fun m2 =>
    and_then (class_attr "f_WEIGHTED_MEAN") (fun m3 =>
    Raise (ValueError (invalid_message aggregation_method [m1; m2; m3])))))
  else Ok (mkKNNRegressor self aggregation_method))))).

(** The state a call runs in: the process-wide order of feature names and the
    instance. *)
Record World : Type := mkWorld {
  feature_names : list string;
  self : KNNRegressor
}.

Definition set_feature_names (names : list string) (s : World) : World :=
  mkWorld names (self s).

Definition set_data_window (w : window.Window) (s : World) : World :=
  let b := base (self s) in
  mkWorld (feature_names s)
    (mkKNNRegressor
       (mkBaseNeighbors (n_neighbors b) (max_window_size b) (leaf_size b) (p b) (Some w))
       (aggregation_method (self s))).

(** [dict2numpy(x)] as called from a method. *)
Definition dict2numpy (x : dict) : M World vec :=
  zoom feature_names set_feature_names (utils.dict2numpy x).

(** [self.data_window], for a call of one of its methods or attributes. *)
Definition the_data_window (attr : string) : M World window.Window :=
  w <- gets (fun s => data_window (base (self s))) ;;
  match w with
  | Some w => ret w
  | None => raise (AttributeError attr)
  end.

(** [KNNRegressor.learn_one].  The method returns [self]; here the instance
    is the state, so the result is [tt]. *)
Definition learn_one (x : dict) (y : Q) : M World unit :=
  x_arr <- dict2numpy x ;;
  w <- the_data_window "add_one" ;;
  modify (set_data_window (window.add_one x_arr y w)).

Section Metric.

Variable pnorm : Q -> vec -> Q.

(** Modelled from the spec: [BaseNeighbors._get_neighbors] is not among the
    sources.  It queries the index over the current content of the window for
    the [n_neighbors] nearest vectors and changes nothing.  The source gets
    arrays with one row; the row is returned here. *)
Definition _get_neighbors (x_arr : vec) : M World (list Q * list nat) :=
  w <- the_data_window "features_buffer" ;;
  b <- gets (fun s => base (self s)) ;;
  ret (index.query pnorm (p b) (window.features_buffer w) x_arr
         (Z.to_nat (n_neighbors b))).

(** [target_buffer[index]] *)
Definition getitem (target_buffer : list Q) (i : nat) : M World Q :=
  match nth_error target_buffer i with
  | Some v => ret v
  | None => raise (IndexError i)
  end.

(** The weights of the weighted mean, before [np.average]. *)
Definition weights_of (dists : list Q) : list float64 :=
  let sum_dist := fsum (map Fin dists) in
  let weights := map (fun dist => fsub (Fin 1) (fdiv (Fin dist) sum_dist)) dists in
  let total := fsum weights in
  map (fun w => fdiv w total) weights.

(** [KNNRegressor.predict_one]; the result [None] is Python's [None]. *)
Definition predict_one (x : dict) : M World (option float64) :=
  dw <- gets (fun s => data_window (base (self s))) ;;
  n <- gets (fun s => n_neighbors (base (self s))) ;;
  match dw with
  | None => ret None
  | Some w0 =>
      if (Z.of_nat (window.size w0) <? n)%Z then ret None
      else
        x_arr <- dict2numpy x ;;
        '(dists, neighbor_idx) <- _get_neighbors x_arr ;;
        w <- the_data_window "targets_buffer" ;;
        let target_buffer := window.targets_buffer w in
        neighbor_vals <- mapM (getitem target_buffer) neighbor_idx ;;
        method <- gets (fun s => aggregation_method (self s)) ;;
        if String.eqb method _MEAN then
          ret (Some (np.mean neighbor_vals))
        else if String.eqb method _MEDIAN then
          ret (Some (np.median neighbor_vals))
        else
          y_pred <- lift (np.average neighbor_vals (weights_of dists)) ;;
          ret (Some y_pred)
  end.

End Metric.

End knn_regressor.

(** ** [creme/feature_extraction/vectorize.py] *)
Module vectorize.

(** [compose]: the functions given are applied from the first to the last. *)
Definition compose2 {A} (f g : A -> A) : A -> A := fun x => f (g x).

Definition compose {A} (functions : list (A -> A)) : A -> A :=
  fold_left compose2 (rev functions) (fun x => x).

(** What [transform_one] may be given: a text, or a [dict] of texts. *)
Inductive input : Type :=
| Str (text : string)
| Dict (fields : list (string * string)).

(** A token count, [collections.Counter], in order of first occurrence. *)
Definition Counter : Type := list (string * nat).

Fixpoint count_one (token : string) (c : Counter) : Counter :=
  match c with
  | [] => [(token, 1%nat)]
  | (k, n) :: c' =>
      if String.eqb k token then (k, S n) :: c' else (k, n) :: count_one token c'
  end.

Definition counter (tokens : list string) : Counter :=
  fold_left (fun c token => count_one token c) tokens [].

(** [str.lower], on ASCII letters. *)
Definition lower_char (c : ascii) : ascii :=
  let n := nat_of_ascii c in
  if ((65 <=? n) && (n <=? 90))%nat then ascii_of_nat (n + 32) else c.

Fixpoint str_lower (s : string) : string :=
  match s with
  | EmptyString => EmptyString
  | String c s' => String (lower_char c) (str_lower s')
  end.

(** [\w]: a letter, a digit or the underscore. *)
Definition is_word (c : ascii) : bool :=
  let n := nat_of_ascii c in
  (((48 <=? n) && (n <=? 57)) || ((65 <=? n) && (n <=? 90))
   || ((97 <=? n) && (n <=? 122)) || (n =? 95))%nat.

Definition flush (run : list ascii) : list string :=
  if (2 <=? length run)%nat then [string_of_list_ascii (rev run)] else [].

(** [re.compile(r'(?u)\b\w\w+\b').findall(text)]: the maximal runs of word
    characters that are at least two characters long.  [run] is the run being
    read, last character first. *)
Fixpoint findall (text : string) (run : list ascii) : list string :=
  match text with
  | EmptyString => flush run
  | String c text' =>
      if is_word c then findall text' (c :: run)
      else flush run ++ findall text' []
  end.

(** The attributes [VectorizerMixin.__init__] sets.  The two callables are
    functions on texts. *)
Record CountVectorizer : Type := mkCountVectorizer {
  on : option string;
  strip_accents : bool;
  lowercase : bool;
  preprocessor : string -> string;
  tokenizer : string -> list string
}.

Section Accents.

(** [sklearn.feature_extraction.text.strip_accents_unicode], a function of
    the library. *)
Variable strip_accents_unicode : string -> string.

(** [build_preprocessor], from the two flags given to the constructor. *)
Definition build_preprocessor (strip_accents lowercase : bool) : string -> string :=
  let steps := (if strip_accents then [strip_accents_unicode] else [])
               ++ (if lowercase then [str_lower] else []) in
  match steps with
  | [] => fun x => x
  | _ => compose steps
  end.

Definition build_tokenizer : string -> list string :=
  fun text => findall text [].

(** [VectorizerMixin.__init__]; an argument left out is [None]. *)
Definition __init__ (on : option string) (strip_accents lowercase : bool)
  (preprocessor : option (string -> string))
  (tokenizer : option (string -> list string)) : CountVectorizer :=
  mkCountVectorizer on strip_accents lowercase
    (match preprocessor with
     | Some f => f
     | None => build_preprocessor strip_accents lowercase
     end)
    (match tokenizer with
     | Some f => f
     | None => build_tokenizer
     end).

End Accents.

Fixpoint lookup (fields : list (string * string)) (key : string) : option string :=
  match fields with
  | [] => None
  | (k, v) :: fields' => if String.eqb k key then Some v else lookup fields' key
  end.

(** [x[self.on]] *)
Definition getitem (x : input) (key : string) : M CountVectorizer input :=
  match x with
  | Dict fields =>
      match lookup fields key with
      | Some v => ret (Str v)
      | None => raise (KeyError key)
      end
  | Str _ => raise (TypeError "string indices must be integers")
  end.

Definition _get_text (x : input) : M CountVectorizer input :=
  o <- gets on ;;
  match o with
  | Some key => getitem x key
  | None => ret x
  end.

(** A callable on texts applied to a value: anything but a text is refused. *)
Definition call {B} (f : string -> B) (x : input) : M CountVectorizer B :=
  match x with
  | Str text => ret (f text)
  | Dict _ => raise (TypeError "expected string or bytes-like object")
  end.

(** [CountVectorizer.transform_one] *)
Definition transform_one (x : input) : M CountVectorizer Counter :=
  text <- _get_text x ;;
  pre <- gets preprocessor ;;
  cleaned <- call pre text ;;
  tok <- gets tokenizer ;;
  ret (counter (tok cleaned)).

End vectorize.

(** ** [TFIDFVectorizer], of the same file *)
Module tfidf.

Import vectorize.

(** A [dict] with texts for keys: lookup, and assignment [d[key] = value],
    which keeps the place of a key already there and puts a new key last. *)
Fixpoint lookup {V} (d : list (string * V)) (key : string) : option V :=
  match d with
  | [] => None
  | (k, v) :: d' => if String.eqb k key then Some v else lookup d' key
  end.

Fixpoint assign {V} (d : list (string * V)) (key : string) (value : V)
  : list (string * V) :=
  match d with
  | [] => [(key, value)]
  | (k, v) :: d' =>
      if String.eqb k key then (k, value) :: d' else (k, v) :: assign d' key value
  end.

(** The attributes of an instance: those [VectorizerMixin.__init__] sets, and
    [normalize], [tfs], [dfs] and [n]. *)
Record TFIDFVectorizer : Type := mkTFIDFVectorizer {
  mixin : CountVectorizer;
  normalize : bool;
  tfs : CountVectorizer;
  dfs : list (string * nat);
  n : nat
}.

Definition set_mixin (m : CountVectorizer) (s : TFIDFVectorizer) : TFIDFVectorizer :=
  mkTFIDFVectorizer m (normalize s) (tfs s) (dfs s) (n s).

Definition set_tfs (t : CountVectorizer) (s : TFIDFVectorizer) : TFIDFVectorizer :=
  mkTFIDFVectorizer (mixin s) (normalize s) t (dfs s) (n s).

Definition set_dfs (d : list (string * nat)) (s : TFIDFVectorizer) : TFIDFVectorizer :=
  mkTFIDFVectorizer (mixin s) (normalize s) (tfs s) d (n s).

Definition set_n (k : nat) (s : TFIDFVectorizer) : TFIDFVectorizer :=
  mkTFIDFVectorizer (mixin s) (normalize s) (tfs s) (dfs s) k.

(** A loop that carries a value. *)
Fixpoint foldM {S A B} (f : B -> A -> M S B) (l : list A) (acc : B) : M S B :=
  match l with
  | [] => ret acc
  | a :: l' => acc' <- f acc a ;; foldM f l' acc'
  end.

(** [self.dfs[term]] on a [defaultdict(int)]: a term that is missing is
    entered with 0. *)
Definition dfs_getitem (term : string) : M TFIDFVectorizer nat :=
  d <- gets dfs ;;
  match lookup d term with
  | Some c => ret c
  | None => modify (set_dfs (d ++ [(term, 0%nat)])) ;;; ret 0%nat
  end.

(** [self.dfs[term] = c] *)
Definition dfs_setitem (term : string) (c : nat) : M TFIDFVectorizer unit :=
  modify (fun s => set_dfs (assign (dfs s) term c) s).

(** [a / b] on Python numbers: a zero divisor raises. *)
Definition truediv {S} (a b : Q) : M S Q :=
  if Qeq_bool b 0 then raise (ZeroDivisionError "division by zero") else ret (a / b).

(** [sum(term_counts.values())] *)
Definition total (term_counts : Counter) : nat :=
  fold_left Nat.add (map snd term_counts) 0%nat.

Section Library.

Variable strip_accents_unicode : string -> string.

(** [math.log] and [math.sqrt], of the library; they are irrational in
    general.  [compute_tfidfs] gives the first a positive argument and the
    second a sum of squares, so neither raises. *)
Variable math_log : Q -> Q.
Variable math_sqrt : Q -> Q.

(** [fit_one] as [CountVectorizer] inherits it from [base.Transformer], which
    is not among the sources.  It is taken to return the transformer it is
    called on, in the state the call leaves. *)
Variable inherited_fit_one : input -> M CountVectorizer unit.

(** [TFIDFVectorizer.__init__] *)
Definition __init__ (on : option string) (strip_accents lowercase : bool)
  (preprocessor : option (string -> string))
  (tokenizer : option (string -> list string)) (normalize : bool) : TFIDFVectorizer :=
  mkTFIDFVectorizer
    (vectorize.__init__ strip_accents_unicode on strip_accents lowercase
       preprocessor tokenizer)
    normalize
    (vectorize.__init__ strip_accents_unicode on strip_accents lowercase
       preprocessor tokenizer)
    [] 0%nat.

(** One turn of the loop of [compute_tfidfs]. *)
Definition tfidf_of (n_terms : nat) (tfidfs : list (string * Q)) (item : string * nat)
  : M TFIDFVectorizer (list (string * Q)) :=
  let '(term, count) := item in
  tf <- truediv (np.of_nat count) (np.of_nat n_terms) ;;
  docs <- gets n ;;
  df <- dfs_getitem term ;;
  ratio <- truediv (np.of_nat (1 + docs)) (np.of_nat (1 + df)) ;;
  let idf := math_log ratio + 1 in
  ret (assign tfidfs term (tf * idf)).

(** [TFIDFVectorizer.compute_tfidfs] *)
Definition compute_tfidfs (term_counts : Counter) : M TFIDFVectorizer (list (string * Q)) :=
  let n_terms := total term_counts in
  tfidfs <- foldM (tfidf_of n_terms) term_counts [] ;;
  normalized <- gets normalize ;;
  if normalized then
    let norm := math_sqrt (Qsum (map (fun item => snd item ^ 2) tfidfs)) in
    mapM (fun item => v <- truediv (snd item) norm ;; ret (fst item, v)) tfidfs
  else ret tfidfs.

(** [self._get_text(x)] on a [TFIDFVectorizer] *)
Definition _get_text (x : input) : M TFIDFVectorizer input :=
  zoom mixin set_mixin (vectorize._get_text x).

(** [self.dfs[term] += 1] *)
Definition increment (term : string) : M TFIDFVectorizer unit :=
  c <- dfs_getitem term ;;
  dfs_setitem term (c + 1).

(** [TFIDFVectorizer.fit_one]; the method returns [self], the state here. *)
Definition fit_one (x : input) : M TFIDFVectorizer unit :=
  text <- _get_text x ;;
  term_counts <- zoom tfs set_tfs
                   (inherited_fit_one text ;;; vectorize.transform_one text) ;;
  mapM increment (map fst term_counts) ;;;
  modify (fun s => set_n (n s + 1) s).

(** [TFIDFVectorizer.transform_one] *)
Definition transform_one (x : input) : M TFIDFVectorizer (list (string * Q)) :=
  text <- _get_text x ;;
  term_counts <- zoom tfs set_tfs (vectorize.transform_one text) ;;
  compute_tfidfs term_counts.

End Library.

End tfidf.

(** ** Vocabulary of the properties *)

(** [preserves proj m]: running [m] leaves the component [proj] of the state
    as it was, whether [m] returns or raises. *)
Definition preserves {S T A} (proj : S -> T) (m : M S A) : Prop :=
  forall s, proj (snd (m s)) = proj s.

(** The state right after [KNNRegressor(n_neighbors, max_window_size,
    aggregation_method=...)], the other arguments at their defaults, in a
    process where no feature name is registered yet. *)
Definition engine (n_neighbors max_window_size : Z) (aggregation_method : string)
  : knn_regressor.World :=
  knn_regressor.mkWorld []
    (knn_regressor.mkKNNRegressor
       (base_neighbors.mkBaseNeighbors n_neighbors max_window_size 30 2
          (Some (window.empty max_window_size)))
       aggregation_method).

(** The samples of the scenario of section 8, and the window they leave in
    an engine of capacity 3. *)
Definition four_samples : list (dict * Q) :=
  [([("f", 1)], 10); ([("f", 2)], 20); ([("f", 3)], 30); ([("f", 4)], 40)].

Definition three_entries : window.Window :=
  window.mkWindow 3 [([2], 20); ([3], 30); ([4], 40)].

(** Two samples at 0 and 4, and the window they leave. *)
Definition two_samples : list (dict * Q) := [([("f", 0)], 10); ([("f", 4)], 20)].

Definition two_entries : window.Window := window.mkWindow 3 [([0], 10); ([4], 20)].

(** A sequence of [learn_one] calls, and the state it leaves. *)
Definition feed (samples : list (dict * Q)) (s : knn_regressor.World)
  : knn_regressor.World :=
  fold_left (fun s sample => snd (knn_regressor.learn_one (fst sample) (snd sample) s))
    samples s.

(** The order section 4.3 puts on the stored vectors, each a pair of its
    distance to the query and its position in the window: the nearer first,
    and at equal distance the lower insertion sequence number first. *)
Definition before (a b : Q * nat) : Prop :=
  fst a < fst b \/ (fst a == fst b /\ (snd a < snd b)%nat).

(** An answer to a query as section 4.3 words it: the stored vectors ranked
    in that order, cut after the [k] nearest, as distances and positions. *)
Definition answers (pnorm : Q -> vec -> Q) (p : Q) (X : list vec) (x : vec) (k : nat)
  (ans : list Q * list nat) : Prop :=
  exists ranked,
    Permutation ranked (combine (index.distances pnorm p X x) (seq 0 (length X)))
    /\ StronglySorted before ranked
    /\ ans = (map fst (firstn k ranked), map snd (firstn k ranked)).

(** The weighted mean as section 4.4 writes it: the weight of a neighbour is
    one minus its share of the total distance, [raw_weights]; the weights are
    then renormalised to sum to one, [spec_weights]; the prediction is the sum
    of the targets so weighted. *)
Definition raw_weights (dists : list Q) : list Q :=
  map (fun d => 1 - d / Qsum dists) dists.

Definition spec_weights (dists : list Q) : list Q :=
  map (fun r => r / Qsum (raw_weights dists)) (raw_weights dists).

Definition spec_weighted_mean (dists targets : list Q) : Q :=
  Qsum (np.zip_with Qmult targets (spec_weights dists)).

Section Retrieval.

Variable pnorm : Q -> vec -> Q.

(** The reduction [predict_one] applies to the targets and distances of the
    neighbours it has retrieved. *)
Definition aggregate (method : string) (dists vals : list Q) : res float64 :=
  if String.eqb method knn_regressor._MEAN then Ok (np.mean vals)
  else if String.eqb method knn_regressor._MEDIAN then Ok (np.median vals)
  else np.average vals (knn_regressor.weights_of dists).

(** The vector [predict_one] makes of its argument. *)
Definition query_vector (x : dict) (s : knn_regressor.World) : vec :=
  map (dict_get x) (utils.register (knn_regressor.feature_names s) x).

(** The neighbours [predict_one] retrieves: their distances and positions. *)
Definition retrieved (x : dict) (s : knn_regressor.World) (w : window.Window)
  : list Q * list nat :=
  let b := knn_regressor.base (knn_regressor.self s) in
  index.query pnorm (base_neighbors.p b) (window.features_buffer w)
    (query_vector x s) (Z.to_nat (base_neighbors.n_neighbors b)).

(** The targets at the positions retrieved. *)
Definition targets_at (w : window.Window) (idx : list nat) : list Q :=
  map (fun i => nth i (window.targets_buffer w) 0) idx.

Definition after_projection (x : dict) (s : knn_regressor.World) : knn_regressor.World :=
  knn_regressor.set_feature_names
    (utils.register (knn_regressor.feature_names s) x) s.

(** What section 4.4 promises of a prediction by weighted mean: the weights
    sum to one and the prediction is the weighted sum of the targets. *)
Definition weighted_mean_formula (x : dict) (s : knn_regressor.World)
  (w : window.Window) : Prop :=
  let dists := fst (retrieved x s w) in
  let targets := targets_at w (snd (retrieved x s w)) in
  Qsum (spec_weights dists) == 1
  /\ exists v, fst (knn_regressor.predict_one pnorm x s) = Ok (Some (Fin v))
               /\ v == spec_weighted_mean dists targets.

End Retrieval.

(** [d[key]] read without entering the key: the number stored, 0 for a key
    that is not there.  It reads a [Counter] and a [defaultdict(int)] alike. *)
Definition count_of (d : list (string * nat)) (key : string) : nat :=
  match tfidf.lookup d key with
  | Some c => c
  | None => 0%nat
  end.

(** An upper-case ASCII letter. *)
Definition is_upper (c : ascii) : bool :=
  let n := nat_of_ascii c in ((65 <=? n) && (n <=? 90))%nat.

(** A token as the default tokenizer makes them: two word characters or
    more. *)
Definition token_ok (token : string) : Prop :=
  (2 <= String.length token)%nat
  /\ Forall (fun c => vectorize.is_word c = true) (list_ascii_of_string token).

Definition no_upper (text : string) : Prop :=
  Forall (fun c => is_upper c = false) (list_ascii_of_string text).

(** A vectorizer with another [on]. *)
Definition with_on (o : option string) (v : vectorize.CountVectorizer)
  : vectorize.CountVectorizer :=
  vectorize.mkCountVectorizer o (vectorize.strip_accents v) (vectorize.lowercase v)
    (vectorize.preprocessor v) (vectorize.tokenizer v).

(** What stays of an instance when only [dfs] is written. *)
Definition but_dfs (s : tfidf.TFIDFVectorizer)
  : vectorize.CountVectorizer * bool * vectorize.CountVectorizer * nat :=
  (tfidf.mixin s, tfidf.normalize s, tfidf.tfs s, tfidf.n s).

(** The weight [compute_tfidfs] gives a term before normalisation: its share
    of the [n_terms] tokens of the document, times one plus the logarithm of
    [(1 + n) / (1 + df)]. *)
Definition tfidf_value (math_log : Q -> Q) (s : tfidf.TFIDFVectorizer) (n_terms : nat)
  (item : string * nat) : Q :=
  np.of_nat (snd item) / np.of_nat n_terms
  * (math_log (np.of_nat (1 + tfidf.n s)
               / np.of_nat (1 + count_of (tfidf.dfs s) (fst item))) + 1).

(** The weights before normalisation, for the tokens of a document. *)
Definition raw_tfidfs (math_log : Q -> Q) (s : tfidf.TFIDFVectorizer)
  (tokens : list string) : list (string * Q) :=
  map (fun item => (fst item, tfidf_value math_log s (length tokens) item))
    (vectorize.counter tokens).

(** * Properties *)

(** ** What a computation leaves unchanged *)

Lemma preserves_ret {S T A} (proj : S -> T) (a : A) : preserves proj (ret a).
Proof. intros s; reflexivity. Qed.

Lemma preserves_raise {S T A} (proj : S -> T) (e : exn) :
  preserves proj (@raise S A e).
Proof. intros s; reflexivity. Qed.

Lemma preserves_gets {S T A} (proj : S -> T) (f : S -> A) : preserves proj (gets f).
Proof. intros s; reflexivity. Qed.

Lemma preserves_lift {S T A} (proj : S -> T) (r : res A) :
  preserves proj (@lift S A r).
Proof. intros s; reflexivity. Qed.

Lemma preserves_bind {S T A B} (proj : S -> T) (m : M S A) (k : A -> M S B) :
  preserves proj m -> (forall a, preserves proj (k a)) -> preserves proj (bind m k).
Proof.
  intros Hm Hk s. unfold bind.
  specialize (Hm s). destruct (m s) as [[a | e] s']; cbn in *.
  - rewrite Hk. exact Hm.
  - exact Hm.
Qed.

Lemma preserves_mapM {S T A B} (proj : S -> T) (f : A -> M S B) (l : list A) :
  (forall a, preserves proj (f a)) -> preserves proj (mapM f l).
Proof.
  intros Hf. induction l as [| a l IH]; cbn [mapM].
  - apply preserves_ret.
  - apply preserves_bind; [apply Hf | intros b].
    apply preserves_bind; [exact IH | intros bs]. apply preserves_ret.
Qed.

Lemma preserves_zoom {S T U A} (proj : S -> U) (get : S -> T) (upd : T -> S -> S)
  (m : M T A) :
  (forall t s, proj (upd t s) = proj s) -> preserves proj (zoom get upd m).
Proof.
  intros H s. unfold zoom. destruct (m (get s)) as [r t]. cbn. apply H.
Qed.

Create HintDb frame.
#[local] Hint Resolve preserves_ret preserves_raise preserves_gets preserves_lift
  preserves_mapM : frame.

Ltac frame :=
  repeat (first
    [ solve [auto with frame]
    | apply preserves_bind; [| intros ?]
    | match goal with
      | |- preserves _ (match ?x with _ => _ end) => destruct x
      | |- preserves _ (if ?b then _ else _) => destruct b
      end ]).

(** ** The count vectorizer *)

Lemma getitem_preserves (x : vectorize.input) (key : string) :
  preserves (fun v => v) (vectorize.getitem x key).
Proof. unfold vectorize.getitem. frame. Qed.

#[local] Hint Resolve getitem_preserves : frame.

Lemma get_text_preserves (x : vectorize.input) :
  preserves (fun v => v) (vectorize._get_text x).
Proof. unfold vectorize._get_text. frame. Qed.

Lemma call_preserves {B} (f : string -> B) (x : vectorize.input) :
  preserves (fun v => v) (vectorize.call f x).
Proof. unfold vectorize.call. frame. Qed.

#[local] Hint Resolve get_text_preserves call_preserves : frame.

Lemma transform_one_preserves (x : vectorize.input) :
  preserves (fun v => v) (vectorize.transform_one x).
Proof. unfold vectorize.transform_one. frame. Qed.

(** C9. [CountVectorizer.transform_one] is stateless per call: after the call
    the vectorizer has the attributes it had before, and a second call on the
    same input, made on the vectorizer the first call left, returns (or
    raises) what the first did. *)
Theorem transform_one_stateless (v : vectorize.CountVectorizer) (x : vectorize.input) :
  snd (vectorize.transform_one x v) = v
  /\ fst (vectorize.transform_one x (snd (vectorize.transform_one x v)))
     = fst (vectorize.transform_one x v).
Proof.
  pose proof (transform_one_preserves x v) as H. cbn beta in H.
  split; [exact H | rewrite H; reflexivity].
Qed.

(** ** The spatial index: ranking is a stable rearrangement *)

Lemma insert_ranked_perm (e : Q * nat) (l : list (Q * nat)) :
  Permutation (index.insert_ranked e l) (e :: l).
Proof.
  induction l as [| e' l IH]; cbn [index.insert_ranked].
  - apply Permutation_refl.
  - destruct (Qle_bool (fst e) (fst e')).
    + apply Permutation_refl.
    + apply perm_trans with (e' :: e :: l).
      * apply perm_skip. exact IH.
      * apply perm_swap.
Qed.

Lemma rank_perm (l : list (Q * nat)) : Permutation (index.rank l) l.
Proof.
  induction l as [| e l IH]; cbn.
  - apply perm_nil.
  - apply perm_trans with (e :: index.rank l).
    + apply insert_ranked_perm.
    + apply perm_skip. exact IH.
Qed.

Lemma rank_length (l : list (Q * nat)) : length (index.rank l) = length l.
Proof. apply Permutation_length, rank_perm. Qed.

Lemma in_firstn {A} (a : A) (n : nat) (l : list A) : In a (firstn n l) -> In a l.
Proof.
  intros H. rewrite <- (firstn_skipn n l). apply in_or_app. left. exact H.
Qed.

Section Engine.

Variable pnorm : Q -> vec -> Q.

Lemma distances_length (p : Q) (X : list vec) (x : vec) :
  length (index.distances pnorm p X x) = length X.
Proof. unfold index.distances. apply length_map. Qed.

(** A query returns positions of the window. *)
Lemma query_in_range (p : Q) (X : list vec) (x : vec) (k : nat) :
  Forall (fun i => (i < length X)%nat) (snd (index.query pnorm p X x k)).
Proof.
  unfold index.query. cbn [snd]. apply Forall_forall. intros i Hi.
  apply in_map_iff in Hi. destruct Hi as [[d j] [Hj Hin]]. cbn in Hj. subst j.
  apply in_firstn in Hin.
  apply (Permutation_in _ (rank_perm _)) in Hin.
  apply in_combine_r in Hin. apply in_seq in Hin. lia.
Qed.

(** A query returns as many distances as positions: [k] of them, or the size
    of the window when that is less. *)
Lemma query_length (p : Q) (X : list vec) (x : vec) (k : nat) :
  length (fst (index.query pnorm p X x k)) = Nat.min k (length X)
  /\ length (snd (index.query pnorm p X x k)) = Nat.min k (length X).
Proof.
  unfold index.query. cbn [fst snd].
  rewrite !length_map, length_firstn, rank_length, length_combine,
    distances_length, length_seq, Nat.min_id.
  split; reflexivity.
Qed.

Lemma mapM_getitem (tb : list Q) (idx : list nat) (s : knn_regressor.World) :
  Forall (fun i => (i < length tb)%nat) idx ->
  mapM (knn_regressor.getitem tb) idx s = (Ok (map (fun i => nth i tb 0) idx), s).
Proof.
  induction 1 as [| i idx Hi _ IH]; cbn [mapM map].
  - reflexivity.
  - unfold bind at 1. unfold knn_regressor.getitem at 1.
    destruct (nth_error tb i) as [v |] eqn:E.
    + cbn. unfold bind at 1. rewrite IH. cbn.
      rewrite (nth_error_nth _ _ 0 E). reflexivity.
    + apply nth_error_None in E. lia.
Qed.

(** Without enough entries [predict_one] returns [None] at once. *)
Lemma predict_one_short (x : dict) (s : knn_regressor.World) (w : window.Window) :
  base_neighbors.data_window (knn_regressor.base (knn_regressor.self s)) = Some w ->
  (Z.of_nat (window.size w)
   < base_neighbors.n_neighbors (knn_regressor.base (knn_regressor.self s)))%Z ->
  knn_regressor.predict_one pnorm x s = (Ok None, s).
Proof.
  intros Hw Hlt. unfold knn_regressor.predict_one, bind, gets. rewrite Hw.
  apply Z.ltb_lt in Hlt. rewrite Hlt. reflexivity.
Qed.

(** With enough entries it registers the names of [x], retrieves the
    neighbours and reduces them; none of the lookups can fail. *)
Lemma predict_one_run (x : dict) (s : knn_regressor.World) (w : window.Window) :
  base_neighbors.data_window (knn_regressor.base (knn_regressor.self s)) = Some w ->
  (base_neighbors.n_neighbors (knn_regressor.base (knn_regressor.self s))
   <= Z.of_nat (window.size w))%Z ->
  knn_regressor.predict_one pnorm x s
  = (and_then
       (aggregate (knn_regressor.aggregation_method (knn_regressor.self s))
          (fst (retrieved pnorm x s w)) (targets_at w (snd (retrieved pnorm x s w))))
       (fun y => Ok (Some y)),
     after_projection x s).
Proof.
  intros Hw Hge.
  pose proof (query_in_range
    (base_neighbors.p (knn_regressor.base (knn_regressor.self s)))
    (window.features_buffer w) (query_vector x s)
    (Z.to_nat (base_neighbors.n_neighbors (knn_regressor.base (knn_regressor.self s)))))
    as Hr.
  fold (retrieved pnorm x s w) in Hr.
  unfold aggregate, after_projection, retrieved, query_vector in *.
  unfold knn_regressor.predict_one, knn_regressor.dict2numpy,
    knn_regressor._get_neighbors, knn_regressor.the_data_window,
    utils.dict2numpy, zoom, bind, gets, modify, ret, raise, lift.
  rewrite Hw. apply Z.ltb_ge in Hge. rewrite Hge.
  unfold knn_regressor.set_feature_names. cbn [knn_regressor.self fst snd].
  rewrite Hw.
  destruct (index.query _ _ _ _ _) as [dists idx]. cbn [fst snd] in *.
  cbv beta. cbn [knn_regressor.self]. rewrite Hw. rewrite mapM_getitem.
  2:{ unfold window.targets_buffer, window.features_buffer in *.
      rewrite length_map in *. exact Hr. }
  cbn [knn_regressor.self]. fold (targets_at w idx).
  destruct (String.eqb _ knn_regressor._MEAN); [reflexivity |].
  destruct (String.eqb _ knn_regressor._MEDIAN); [reflexivity |].
  cbn [and_then]. destruct (np.average _ _); reflexivity.
Qed.

(** *** What [predict_one] leaves unchanged *)

Lemma dict2numpy_preserves_self (x : dict) :
  preserves knn_regressor.self (knn_regressor.dict2numpy x).
Proof. apply preserves_zoom. reflexivity. Qed.

Lemma the_data_window_preserves (attr : string) :
  preserves knn_regressor.self (knn_regressor.the_data_window attr).
Proof. unfold knn_regressor.the_data_window. frame. Qed.

#[local] Hint Resolve dict2numpy_preserves_self the_data_window_preserves : frame.

Lemma get_neighbors_preserves (x_arr : vec) :
  preserves knn_regressor.self (knn_regressor._get_neighbors pnorm x_arr).
Proof. unfold knn_regressor._get_neighbors. frame. Qed.

Lemma getitem_target_preserves (tb : list Q) (i : nat) :
  preserves knn_regressor.self (knn_regressor.getitem tb i).
Proof. unfold knn_regressor.getitem. frame. Qed.

#[local] Hint Resolve get_neighbors_preserves getitem_target_preserves : frame.

(** C10. [predict_one] changes nothing on the instance: after the call,
    whatever it returned, [self] has the window (content and size) and the
    configuration ([n_neighbors], [max_window_size], [leaf_size], [p],
    [aggregation_method]) it had before. *)
Theorem predict_one_frame (x : dict) (s : knn_regressor.World) :
  knn_regressor.self (snd (knn_regressor.predict_one pnorm x s))
  = knn_regressor.self s.
Proof.
  revert s. change (preserves knn_regressor.self (knn_regressor.predict_one pnorm x)).
  unfold knn_regressor.predict_one. frame.
Qed.

End Engine.

(** ** Sums of floats *)

Lemma fold_fadd_Fin (l : list Q) (a : Q) :
  fold_left fadd (map Fin l) (Fin a) = Fin (fold_left Qplus l a).
Proof.
  revert a. induction l as [| b l IH]; intros a; cbn; [reflexivity | apply IH].
Qed.

Lemma fsum_Fin (l : list Q) : fsum (map Fin l) = Fin (Qsum l).
Proof. apply fold_fadd_Fin. Qed.

Lemma fold_Qplus (l : list Q) (a : Q) : fold_left Qplus l a == a + Qsum l.
Proof.
  unfold Qsum. revert a. induction l as [| b l IH]; intros a; cbn.
  - ring.
  - rewrite IH, (IH (0 + b)). ring.
Qed.

Lemma Qsum_cons (a : Q) (l : list Q) : Qsum (a :: l) == a + Qsum l.
Proof. unfold Qsum at 1. cbn. rewrite fold_Qplus. ring. Qed.

Lemma Qsum_map_div (l : list Q) (t : Q) :
  Qsum (map (fun r => r / t) l) == Qsum l / t.
Proof.
  induction l as [| a l IH]; cbn [map].
  - unfold Qsum; cbn. unfold Qdiv. ring.
  - rewrite !Qsum_cons, IH. unfold Qdiv. ring.
Qed.

Lemma Qsum_raw (l : list Q) (t : Q) :
  Qsum (map (fun d => 1 - d / t) l) == np.of_nat (length l) - Qsum l / t.
Proof.
  induction l as [| a l IH]; cbn [map length].
  - unfold Qsum, np.of_nat; cbn. unfold Qdiv. ring.
  - rewrite !Qsum_cons, IH. unfold np.of_nat.
    rewrite Nat2Z.inj_succ, <- Z.add_1_r, inject_Z_plus. unfold Qdiv. ring.
Qed.

Lemma Qeq_bool_false (a b : Q) : ~ a == b -> Qeq_bool a b = false.
Proof.
  intros H. destruct (Qeq_bool a b) eqn:E; [| reflexivity].
  apply Qeq_bool_iff in E. contradiction.
Qed.

Lemma fadd_nonfin (x y : float64) : nonfin y -> nonfin (fadd x y).
Proof. unfold nonfin. destruct x, y; cbn; congruence. Qed.

Lemma fold_fadd_nonfin (l : list float64) (acc : float64) :
  Forall nonfin l -> nonfin acc \/ l <> [] -> nonfin (fold_left fadd l acc).
Proof.
  intros Hl. revert acc. induction Hl as [| x l Hx _ IH]; intros acc Hacc; cbn.
  - destruct Hacc as [H | H]; [exact H | congruence].
  - apply IH. left. apply fadd_nonfin. exact Hx.
Qed.

Lemma fsum_nonfin (l : list float64) :
  Forall nonfin l -> l <> [] -> nonfin (fsum l).
Proof. intros Hl Hne. apply fold_fadd_nonfin; [exact Hl | right; exact Hne]. Qed.

Lemma nonfin_not_zero (x : float64) : nonfin x -> np.is_zero x = false.
Proof. unfold nonfin. destruct x; cbn; congruence. Qed.

Lemma inf_of_sign_cases (c : comparison) :
  inf_of_sign c = NaN \/ inf_of_sign c = PInf \/ inf_of_sign c = NInf.
Proof. destruct c; cbn; auto. Qed.

Lemma fdiv_nonfin (x y : float64) : nonfin x -> nonfin y -> fdiv x y = NaN.
Proof. unfold nonfin. destruct x, y; cbn; congruence. Qed.

Lemma zip_with_Fin (a b : list Q) :
  np.zip_with fmul (map Fin a) (map Fin b) = map Fin (np.zip_with Qmult a b).
Proof.
  revert b. induction a as [| x a IH]; intros [| y b]; cbn; try reflexivity.
  rewrite IH. reflexivity.
Qed.

(** ** The weights of the weighted mean *)

(** Distances that sum to zero: every weight is not-a-number. *)
Lemma weights_of_degenerate (dists : list Q) :
  Qsum dists == 0 ->
  knn_regressor.weights_of dists = map (fun _ => NaN) dists.
Proof.
  intros Hz. unfold knn_regressor.weights_of. rewrite fsum_Fin.
  assert (Hraw : forall d, nonfin (fsub (Fin 1) (fdiv (Fin d) (Fin (Qsum dists))))).
  { intros d. cbn [fdiv]. apply Qeq_bool_iff in Hz. rewrite Hz.
    destruct (inf_of_sign_cases (Qsign d)) as [E | [E | E]]; rewrite E; reflexivity. }
  destruct dists as [| d0 dists]; [reflexivity |].
  set (raw := map _ (d0 :: dists)).
  assert (Hall : Forall nonfin raw).
  { apply Forall_forall. intros r Hr. apply in_map_iff in Hr.
    destruct Hr as [d [<- _]]. apply Hraw. }
  assert (Ht : nonfin (fsum raw)) by (apply fsum_nonfin; [exact Hall | discriminate]).
  generalize dependent (fsum raw). intros total Ht. subst raw.
  rewrite map_map. apply map_ext. intros d. apply fdiv_nonfin; [apply Hraw | exact Ht].
Qed.

(** Distances that do not: the weights before renormalisation are finite. *)
Lemma raw_weights_Fin (dists : list Q) :
  ~ Qsum dists == 0 ->
  map (fun dist => fsub (Fin 1) (fdiv (Fin dist) (Fin (Qsum dists)))) dists
  = map Fin (raw_weights dists).
Proof.
  intros Hnz. unfold raw_weights. rewrite map_map. apply map_ext. intros d.
  cbn [fdiv]. rewrite (Qeq_bool_false _ _ Hnz). reflexivity.
Qed.

(** When moreover they can be renormalised, the weights are those of the
    formula. *)
Lemma weights_of_regular (dists : list Q) :
  ~ Qsum dists == 0 -> ~ Qsum (raw_weights dists) == 0 ->
  knn_regressor.weights_of dists
  = map Fin (map (fun r => r / Qsum (raw_weights dists)) (raw_weights dists)).
Proof.
  intros Hnz Hr. unfold knn_regressor.weights_of.
  rewrite fsum_Fin, (raw_weights_Fin _ Hnz), fsum_Fin, !map_map.
  apply map_ext. intros r. cbn [fdiv]. rewrite (Qeq_bool_false _ _ Hr). reflexivity.
Qed.

(** When they cannot, no weight is finite. *)
Lemma weights_of_collapsed (dists : list Q) :
  ~ Qsum dists == 0 -> Qsum (raw_weights dists) == 0 ->
  Forall nonfin (knn_regressor.weights_of dists).
Proof.
  intros Hnz Hr. unfold knn_regressor.weights_of.
  rewrite fsum_Fin, (raw_weights_Fin _ Hnz), fsum_Fin, !map_map.
  apply Forall_forall. intros w Hw. apply in_map_iff in Hw.
  destruct Hw as [r [<- _]]. cbn [fdiv].
  apply Qeq_bool_iff in Hr. rewrite Hr.
  destruct (inf_of_sign_cases (Qsign r)) as [E | [E | E]]; rewrite E; reflexivity.
Qed.

Lemma weights_of_length (dists : list Q) :
  length (knn_regressor.weights_of dists) = length dists.
Proof. unfold knn_regressor.weights_of. rewrite !length_map. reflexivity. Qed.

(** The renormalised weights never sum to exactly zero, so [np.average] does
    not refuse them. *)
Lemma weights_sum_not_zero (dists : list Q) :
  dists <> [] -> np.is_zero (fsum (knn_regressor.weights_of dists)) = false.
Proof.
  intros Hne.
  assert (Hw : knn_regressor.weights_of dists <> []).
  { intros E. apply (f_equal (@length _)) in E. rewrite weights_of_length in E.
    destruct dists; [congruence | discriminate]. }
  destruct (Qeq_dec (Qsum dists) 0) as [Hz | Hnz].
  - apply nonfin_not_zero, fsum_nonfin; [| exact Hw].
    rewrite (weights_of_degenerate _ Hz). apply Forall_forall.
    intros w Hin. apply in_map_iff in Hin. destruct Hin as [d [<- _]]. reflexivity.
  - destruct (Qeq_dec (Qsum (raw_weights dists)) 0) as [Hr | Hr].
    + apply nonfin_not_zero, fsum_nonfin; [| exact Hw].
      apply weights_of_collapsed; assumption.
    + rewrite (weights_of_regular _ Hnz Hr), fsum_Fin. cbn [np.is_zero].
      apply Qeq_bool_false. rewrite Qsum_map_div. intros E.
      apply Hr. rewrite <- (Qmult_div_r (Qsum (raw_weights dists)) (Qsum (raw_weights dists))) by exact Hr.
      rewrite E. ring.
Qed.

(** [np.average] with the weights of the formula. *)
Lemma average_regular (vals dists : list Q) :
  length vals = length dists ->
  ~ Qsum dists == 0 -> ~ Qsum (raw_weights dists) == 0 ->
  exists v, np.average vals (knn_regressor.weights_of dists) = Ok (Fin v)
            /\ v == spec_weighted_mean dists vals
            /\ Qsum (spec_weights dists) == 1.
Proof.
  intros Hlen Hnz Hr.
  assert (Hone : Qsum (spec_weights dists) == 1).
  { unfold spec_weights. rewrite Qsum_map_div. field. exact Hr. }
  unfold np.average. rewrite weights_of_length, Hlen, Nat.eqb_refl. cbn [negb].
  rewrite (weights_sum_not_zero dists).
  2:{ intros ->. apply Hnz. reflexivity. }
  rewrite (weights_of_regular _ Hnz Hr). fold (spec_weights dists).
  rewrite zip_with_Fin, !fsum_Fin. cbn [fdiv].
  rewrite Qeq_bool_false by (rewrite Hone; discriminate).
  eexists. split; [reflexivity |]. split; [| exact Hone].
  unfold spec_weighted_mean. rewrite Hone. field.
Qed.

(** [np.average] when the distances sum to zero. *)
Lemma average_degenerate (vals dists : list Q) :
  length vals = length dists -> dists <> [] -> Qsum dists == 0 ->
  np.average vals (knn_regressor.weights_of dists) = Ok NaN.
Proof.
  intros Hlen Hne Hz. unfold np.average.
  rewrite weights_of_length, Hlen, Nat.eqb_refl. cbn [negb].
  rewrite (weights_sum_not_zero dists Hne).
  assert (E : fsum (knn_regressor.weights_of dists) = NaN).
  { rewrite (weights_of_degenerate _ Hz).
    destruct dists as [| d dists]; [congruence |]. unfold fsum. cbn.
    clear. induction dists as [| d' dists IH]; [reflexivity | exact IH]. }
  rewrite E. clear E. destruct (fsum _); reflexivity.
Qed.

(** ** The order of feature names *)

Lemma mem_In (name : string) (names : list string) :
  mem name names = true <-> In name names.
Proof.
  unfold mem. rewrite existsb_exists. split.
  - intros [n [Hin Heq]]. apply String.eqb_eq in Heq. subst n. exact Hin.
  - intros Hin. exists name. split; [exact Hin | apply String.eqb_refl].
Qed.

Lemma mem_not_In (name : string) (names : list string) :
  mem name names = false <-> ~ In name names.
Proof.
  rewrite <- mem_In. destruct (mem name names); split; congruence.
Qed.

(** Registering a list of names appends those not seen before, each once. *)
Lemma register_appends (ks names : list string) :
  exists fresh,
    fold_left utils.register_one ks names = names ++ fresh
    /\ NoDup fresh
    /\ forall n, In n fresh <-> In n ks /\ ~ In n names.
Proof.
  revert names. induction ks as [| k ks IH]; intros names; cbn [fold_left].
  - exists []. rewrite app_nil_r. split; [reflexivity |].
    split; [constructor |]. intros n. cbn. tauto.
  - unfold utils.register_one at 2. destruct (mem k names) eqn:Hk.
    + apply mem_In in Hk. destruct (IH names) as [fresh [E [Hnd Hin]]].
      exists fresh. split; [exact E |]. split; [exact Hnd |].
      intros n. rewrite Hin. cbn. split; [tauto |].
      intros [[-> | H] Hn]; [contradiction | tauto].
    + apply mem_not_In in Hk. destruct (IH (names ++ [k])) as [fresh [E [Hnd Hin]]].
      exists (k :: fresh). split; [rewrite E, <- app_assoc; reflexivity |]. split.
      * constructor; [| exact Hnd]. intros H. apply Hin in H.
        apply (proj2 H). apply in_or_app. right. left. reflexivity.
      * intros n. cbn. rewrite Hin. split.
        -- intros [<- | [H1 H2]]; [tauto |].
           split; [tauto |]. intros H. apply H2. apply in_or_app. tauto.
        -- intros [[<- | H1] H2]; [tauto |].
           destruct (string_dec k n) as [-> | Hne]; [tauto |].
           right. split; [exact H1 |]. intros H. apply in_app_or in H.
           destruct H as [H | [H | []]]; [tauto | congruence].
Qed.

(** Names that are all registered already leave the order as it is. *)
Lemma register_known (ks names : list string) :
  (forall k, In k ks -> In k names) ->
  fold_left utils.register_one ks names = names.
Proof.
  induction ks as [| k ks IH]; intros H; cbn [fold_left]; [reflexivity |].
  unfold utils.register_one at 2.
  rewrite (proj2 (mem_In k names)) by (apply H; left; reflexivity).
  apply IH. intros k' Hk'. apply H. right. exact Hk'.
Qed.

Lemma register_idempotent (names : list string) (x : dict) :
  utils.register (utils.register names x) x = utils.register names x.
Proof.
  unfold utils.register.
  destruct (register_appends (keys x) names) as [fresh [E [_ Hin]]].
  apply register_known. intros k Hk. rewrite E. apply in_or_app.
  destruct (in_dec string_dec k names) as [H | H]; [left; exact H |].
  right. apply Hin. split; assumption.
Qed.

Lemma dict_get_absent (x : dict) (name : string) :
  ~ In name (keys x) -> dict_get x name = 0.
Proof.
  induction x as [| [k v] x IH]; cbn; intros H; [reflexivity |].
  destruct (String.eqb k name) eqn:E.
  - apply String.eqb_eq in E. tauto.
  - apply IH. tauto.
Qed.

Lemma dict_get_present (x : dict) (name : string) (v : Q) :
  NoDup (keys x) -> In (name, v) x -> dict_get x name = v.
Proof.
  induction x as [| [k v'] x IH]; cbn; intros Hnd Hin; [contradiction |].
  inversion Hnd as [| ? ? Hk Hnd']; subst.
  destruct Hin as [E | Hin].
  - inversion E; subst. rewrite String.eqb_refl. reflexivity.
  - destruct (String.eqb k name) eqn:E.
    + apply String.eqb_eq in E. subst k. exfalso. apply Hk.
      apply in_map_iff. exists (name, v). split; [reflexivity | exact Hin].
    + apply IH; assumption.
Qed.

(** C6. Projecting [x] registers every name of [x] not seen before at the end
    of the order of names, each once, and keeps the names already there in
    place; it returns a vector with one component per registered name, in
    registration order: the value [x] gives the name, or 0 for a name [x]
    does not have. *)
Theorem dict2numpy_registers (x : dict) (names : list string) :
  exists (v : vec) (fresh : list string),
    utils.dict2numpy x names = (Ok v, names ++ fresh)
    /\ NoDup fresh
    /\ (forall n, In n fresh <-> In n (keys x) /\ ~ In n names)
    /\ length v = length (names ++ fresh)
    /\ (forall i n, nth_error (names ++ fresh) i = Some n ->
          nth_error v i = Some (dict_get x n))
    /\ (forall n, ~ In n (keys x) -> dict_get x n = 0)
    /\ (forall n q, NoDup (keys x) -> In (n, q) x -> dict_get x n = q).
Proof.
  destruct (register_appends (keys x) names) as [fresh [E [Hnd Hin]]].
  exists (map (dict_get x) (names ++ fresh)), fresh.
  split.
  { unfold utils.dict2numpy, bind, modify, gets, ret, utils.register.
    rewrite E. reflexivity. }
  split; [exact Hnd |]. split; [exact Hin |].
  split; [apply length_map |].
  split.
  { intros i n Hn. rewrite nth_error_map, Hn. reflexivity. }
  split; [apply dict_get_absent |].
  intros n q. apply dict_get_present.
Qed.

(** ** Predictions *)

Section Predictions.

Variable pnorm : Q -> vec -> Q.

#[local] Abbreviation window_of s :=
  (base_neighbors.data_window (knn_regressor.base (knn_regressor.self s))).
#[local] Abbreviation n_neighbors_of s :=
  (base_neighbors.n_neighbors (knn_regressor.base (knn_regressor.self s))).
#[local] Abbreviation method_of s := (knn_regressor.aggregation_method (knn_regressor.self s)).

Lemma predict_one_no_window (x : dict) (s : knn_regressor.World) :
  window_of s = None -> knn_regressor.predict_one pnorm x s = (Ok None, s).
Proof.
  intros Hw. unfold knn_regressor.predict_one, bind, gets. rewrite Hw. reflexivity.
Qed.

(** As many targets as distances are retrieved, and at least one. *)
Lemma retrieved_lengths (x : dict) (s : knn_regressor.World) (w : window.Window) :
  (0 < n_neighbors_of s)%Z -> (n_neighbors_of s <= Z.of_nat (window.size w))%Z ->
  length (targets_at w (snd (retrieved pnorm x s w)))
  = length (fst (retrieved pnorm x s w))
  /\ fst (retrieved pnorm x s w) <> [].
Proof.
  intros Hpos Hge. unfold targets_at, retrieved. rewrite length_map.
  destruct (query_length pnorm (base_neighbors.p (knn_regressor.base (knn_regressor.self s)))
              (window.features_buffer w) (query_vector x s)
              (Z.to_nat (n_neighbors_of s))) as [Hd Hi].
  rewrite Hd, Hi. split; [reflexivity |].
  intros E. rewrite E in Hd. cbn in Hd.
  unfold window.features_buffer, window.size in *. rewrite length_map in Hd. lia.
Qed.

(** The reduction returns; it raises nothing. *)
Lemma aggregate_returns (method : string) (dists vals : list Q) :
  length vals = length dists -> dists <> [] ->
  exists y, aggregate method dists vals = Ok y.
Proof.
  intros Hlen Hne. unfold aggregate.
  destruct (String.eqb method knn_regressor._MEAN); [eexists; reflexivity |].
  destruct (String.eqb method knn_regressor._MEDIAN); [eexists; reflexivity |].
  unfold np.average. rewrite weights_of_length, Hlen, Nat.eqb_refl. cbn [negb].
  rewrite (weights_sum_not_zero dists Hne). eexists; reflexivity.
Qed.

(** C1. [predict_one] returns [None] exactly when the window holds fewer than
    [n_neighbors] entries; when it holds at least that many the call returns
    a number, without raising. *)
Theorem predict_one_sentinel (x : dict) (s : knn_regressor.World) (w : window.Window) :
  window_of s = Some w ->
  (0 < n_neighbors_of s)%Z ->
  (fst (knn_regressor.predict_one pnorm x s) = Ok None
   <-> (Z.of_nat (window.size w) < n_neighbors_of s)%Z)
  /\ ((n_neighbors_of s <= Z.of_nat (window.size w))%Z ->
      exists y, fst (knn_regressor.predict_one pnorm x s) = Ok (Some y)).
Proof.
  intros Hw Hpos.
  assert (Hrun : (n_neighbors_of s <= Z.of_nat (window.size w))%Z ->
                 exists y, fst (knn_regressor.predict_one pnorm x s) = Ok (Some y)).
  { intros Hge. rewrite (predict_one_run pnorm x s w Hw Hge). cbn [fst].
    destruct (retrieved_lengths x s w Hpos Hge) as [Hlen Hne].
    destruct (aggregate_returns (method_of s) _ _ Hlen Hne) as [y Hy].
    exists y. rewrite Hy. reflexivity. }
  split; [| exact Hrun]. split.
  - intros Hnone.
    destruct (Z.lt_ge_cases (Z.of_nat (window.size w)) (n_neighbors_of s)) as [H | H];
      [exact H |].
    destruct (Hrun H) as [y Hy]. congruence.
  - intros Hlt. rewrite (predict_one_short pnorm x s w Hw Hlt). reflexivity.
Qed.

Lemma retrieved_after_projection (x : dict) (s : knn_regressor.World) (w : window.Window) :
  retrieved pnorm x (after_projection x s) w = retrieved pnorm x s w.
Proof.
  unfold retrieved, query_vector, after_projection. cbn.
  rewrite register_idempotent. reflexivity.
Qed.

Lemma after_projection_idempotent (x : dict) (s : knn_regressor.World) :
  after_projection x (after_projection x s) = after_projection x s.
Proof.
  unfold after_projection, knn_regressor.set_feature_names. cbn.
  rewrite register_idempotent. reflexivity.
Qed.

(** C8. Under the weighted mean, when the distances of the neighbours
    retrieved sum to zero, [predict_one] returns not-a-number: it does not
    raise, and it does not return the plain mean of the targets, which is a
    finite number. *)
Theorem weighted_mean_zero_distance (x : dict) (s : knn_regressor.World)
  (w : window.Window) :
  window_of s = Some w ->
  method_of s = knn_regressor._WEIGHTED_MEAN ->
  (0 < n_neighbors_of s)%Z ->
  (n_neighbors_of s <= Z.of_nat (window.size w))%Z ->
  Qsum (fst (retrieved pnorm x s w)) == 0 ->
  fst (knn_regressor.predict_one pnorm x s) = Ok (Some NaN)
  /\ exists m, np.mean (targets_at w (snd (retrieved pnorm x s w))) = Fin m.
Proof.
  intros Hw Hm Hpos Hge Hz.
  destruct (retrieved_lengths x s w Hpos Hge) as [Hlen Hne]. split.
  - rewrite (predict_one_run pnorm x s w Hw Hge). cbn [fst].
    unfold aggregate. rewrite Hm. cbn [String.eqb knn_regressor._WEIGHTED_MEAN
      knn_regressor._MEAN knn_regressor._MEDIAN Ascii.eqb Bool.eqb].
    rewrite (average_degenerate _ _ Hlen Hne Hz). reflexivity.
  - unfold np.mean. rewrite fsum_Fin. cbn [fdiv].
    rewrite Qeq_bool_false; [eexists; reflexivity |].
    rewrite Hlen. destruct (fst (retrieved pnorm x s w)); [congruence |].
    unfold np.of_nat. cbn [length]. intros E.
    unfold Qeq in E. cbn in E. lia.
Qed.

(** With two neighbours or more the weights can be renormalised: before
    renormalisation they sum to the number of neighbours less one. *)
Lemma raw_weights_sum (dists : list Q) :
  ~ Qsum dists == 0 -> (2 <= length dists)%nat -> ~ Qsum (raw_weights dists) == 0.
Proof.
  intros Hnz Hk. unfold raw_weights. rewrite Qsum_raw.
  assert (E : Qsum dists / Qsum dists == 1) by (field; exact Hnz).
  rewrite E. unfold np.of_nat. intros H.
  assert (Hk' : (2 <= Z.of_nat (length dists))%Z) by lia.
  unfold Qeq, Qminus, Qplus, Qopp, inject_Z in H. cbn in H. lia.
Qed.

(** C4, as amended. Under the weighted mean, with at least two neighbours
    retrieved and distances that do not sum to zero, the prediction is the sum
    of the targets weighted by [1 - d_i / sum_j d_j] renormalised to sum to
    one.  For distances 1 and 3 the weights are 3/4 and 1/4, and the
    prediction is 3/4 of the first target plus 1/4 of the second. *)
Theorem weighted_mean_prediction (x : dict) (s : knn_regressor.World)
  (w : window.Window) :
  window_of s = Some w ->
  method_of s = knn_regressor._WEIGHTED_MEAN ->
  (2 <= n_neighbors_of s)%Z ->
  (n_neighbors_of s <= Z.of_nat (window.size w))%Z ->
  ~ Qsum (fst (retrieved pnorm x s w)) == 0 ->
  weighted_mean_formula pnorm x s w
  /\ (fst (retrieved pnorm x s w) = [1; 3] ->
      exists t1 t2 v,
        targets_at w (snd (retrieved pnorm x s w)) = [t1; t2]
        /\ Forall2 Qeq (spec_weights [1; 3]) [3 # 4; 1 # 4]
        /\ fst (knn_regressor.predict_one pnorm x s) = Ok (Some (Fin v))
        /\ v == (3 # 4) * t1 + (1 # 4) * t2).
Proof.
  intros Hw Hm Hn Hge Hnz.
  assert (Hpos : (0 < n_neighbors_of s)%Z) by lia.
  destruct (retrieved_lengths x s w Hpos Hge) as [Hlen Hne].
  assert (Hk : (2 <= length (fst (retrieved pnorm x s w)))%nat).
  { unfold retrieved.
    destruct (query_length pnorm (base_neighbors.p (knn_regressor.base (knn_regressor.self s)))
                (window.features_buffer w) (query_vector x s)
                (Z.to_nat (n_neighbors_of s))) as [Hd _].
    rewrite Hd. unfold window.features_buffer, window.size in *.
    rewrite length_map. lia. }
  destruct (average_regular _ _ Hlen Hnz (raw_weights_sum _ Hnz Hk))
    as [v [Hv [Hspec Hone]]].
  assert (Hres : fst (knn_regressor.predict_one pnorm x s) = Ok (Some (Fin v))).
  { rewrite (predict_one_run pnorm x s w Hw Hge). cbn [fst].
    unfold aggregate. rewrite Hm. cbn [String.eqb knn_regressor._WEIGHTED_MEAN
      knn_regressor._MEAN knn_regressor._MEDIAN Ascii.eqb Bool.eqb].
    rewrite Hv. reflexivity. }
  split.
  - split; [exact Hone |]. exists v. split; [exact Hres | exact Hspec].
  - intros E. rewrite E in *.
    destruct (targets_at w (snd (retrieved pnorm x s w))) as [| t1 [| t2 [| t3 ts]]];
      try discriminate.
    exists t1, t2, v. split; [reflexivity |]. split.
    + repeat constructor; reflexivity.
    + split; [exact Hres |]. rewrite Hspec.
      unfold spec_weighted_mean, spec_weights, raw_weights, Qsum. cbn. field.
Qed.

End Predictions.

(** ** Construction *)

Lemma init_base_attributes (n c leaf : Z) (p : Q) (b : base_neighbors.BaseNeighbors) :
  base_neighbors.__init__ n c leaf p = Ok b ->
  b = base_neighbors.mkBaseNeighbors n c leaf p (Some (window.empty c))
  /\ (0 < n)%Z /\ (0 < c)%Z /\ (0 < leaf)%Z /\ 1 <= p.
Proof.
  unfold base_neighbors.__init__.
  destruct (0 <? n)%Z eqn:Hn; cbn [negb]; [| discriminate].
  destruct (0 <? c)%Z eqn:Hc; cbn [negb]; [| discriminate].
  destruct (0 <? leaf)%Z eqn:Hl; cbn [negb]; [| discriminate].
  destruct (Qle_bool 1 p) eqn:Hp; cbn [negb]; [| discriminate].
  intros E. inversion E. apply Z.ltb_lt in Hn, Hc, Hl. apply Qle_bool_iff in Hp.
  repeat split; assumption.
Qed.

Lemma mem_methods (method : string) :
  mem method [knn_regressor._MEAN; knn_regressor._MEDIAN; knn_regressor._WEIGHTED_MEAN]
  = false
  <-> method <> "mean" /\ method <> "median" /\ method <> "weighted_mean".
Proof.
  rewrite mem_not_In. cbn. unfold knn_regressor._MEAN, knn_regressor._MEDIAN,
    knn_regressor._WEIGHTED_MEAN. split.
  - intros H. repeat split; intros E; apply H; subst; tauto.
  - intros [H1 [H2 H3]] [E | [E | [E | []]]]; congruence.
Qed.

(** A valid [aggregation_method] is stored as given. *)
Lemma init_stores_method (n c leaf : Z) (p : Q) (method : string)
  (b : base_neighbors.BaseNeighbors) :
  base_neighbors.__init__ n c leaf p = Ok b ->
  method = "mean" \/ method = "median" \/ method = "weighted_mean" ->
  knn_regressor.__init__ n c leaf p method = Ok (knn_regressor.mkKNNRegressor b method).
Proof.
  intros Hb Hm. unfold knn_regressor.__init__. rewrite Hb. cbn [and_then].
  destruct Hm as [-> | [-> | ->]]; reflexivity.
Qed.

(** C5, on the failing path. With the other arguments valid, an
    [aggregation_method] outside the three names makes the constructor raise,
    at once; the exception is the [AttributeError] of the misspelt
    [self.f_WEIGHTED_MEAN], raised while the message is being built, and not
    the [ValueError] the statement is written to raise. *)
Theorem init_invalid_method (n c leaf : Z) (p : Q) (method : string)
  (b : base_neighbors.BaseNeighbors) :
  base_neighbors.__init__ n c leaf p = Ok b ->
  method <> "mean" -> method <> "median" -> method <> "weighted_mean" ->
  knn_regressor.__init__ n c leaf p method = Raise (AttributeError "f_WEIGHTED_MEAN").
Proof.
  intros Hb H1 H2 H3. unfold knn_regressor.__init__. rewrite Hb. cbn [and_then].
  change (knn_regressor.class_attr "_MEAN") with (Ok knn_regressor._MEAN).
  change (knn_regressor.class_attr "_MEDIAN") with (Ok knn_regressor._MEDIAN).
  change (knn_regressor.class_attr "_WEIGHTED_MEAN")
    with (Ok knn_regressor._WEIGHTED_MEAN).
  cbn [and_then].
  rewrite (proj2 (mem_methods method)) by (repeat split; assumption).
  reflexivity.
Qed.

(** ** The window *)

Lemma add_one_capacity (v : vec) (y : Q) (w : window.Window) :
  window.capacity (window.add_one v y w) = window.capacity w.
Proof. unfold window.add_one. destruct (_ <? _)%Z; reflexivity. Qed.

Lemma add_one_size (v : vec) (y : Q) (w : window.Window) :
  window.size (window.add_one v y w)
  = if (window.capacity w <? Z.of_nat (S (window.size w)))%Z
    then window.size w else S (window.size w).
Proof.
  unfold window.add_one, window.size. rewrite length_app. cbn [length].
  rewrite Nat.add_1_r. destruct (_ <? _)%Z; cbn [window.entries].
  - destruct (window.entries w); cbn; [reflexivity |].
    rewrite length_app. cbn. lia.
  - rewrite length_app. cbn. lia.
Qed.

Lemma learn_one_run (x : dict) (y : Q) (s : knn_regressor.World) (w : window.Window) :
  base_neighbors.data_window (knn_regressor.base (knn_regressor.self s)) = Some w ->
  knn_regressor.learn_one x y s
  = (Ok tt,
     knn_regressor.set_data_window (window.add_one (query_vector x s) y w)
       (after_projection x s)).
Proof.
  intros Hw.
  unfold knn_regressor.learn_one, knn_regressor.dict2numpy,
    knn_regressor.the_data_window, utils.dict2numpy, zoom, bind, gets, modify,
    ret, raise.
  unfold knn_regressor.set_feature_names at 1. cbn [knn_regressor.self].
  rewrite Hw. reflexivity.
Qed.

(** After any sequence of [learn_one] calls the window holds the samples
    given, up to its capacity. *)
Lemma feed_size (c : Z) (samples : list (dict * Q)) :
  (0 < c)%Z ->
  forall (s : knn_regressor.World) (w : window.Window),
    base_neighbors.data_window (knn_regressor.base (knn_regressor.self s)) = Some w ->
    window.capacity w = c -> (Z.of_nat (window.size w) <= c)%Z ->
    exists w',
      base_neighbors.data_window
        (knn_regressor.base (knn_regressor.self (feed samples s))) = Some w'
      /\ window.capacity w' = c
      /\ Z.of_nat (window.size w') = Z.min (Z.of_nat (window.size w + length samples)) c.
Proof.
  intros Hc. induction samples as [| [x y] samples IH]; intros s w Hw Hcap Hsz.
  - exists w. cbn. rewrite Nat.add_0_r. repeat split; [exact Hw | exact Hcap | lia].
  - cbn [feed fold_left fst snd]. rewrite (learn_one_run x y s w Hw). cbn [snd].
    set (w1 := window.add_one (query_vector x s) y w).
    assert (Hs1 : Z.of_nat (window.size w1)
                  = Z.min (Z.of_nat (S (window.size w))) c).
    { unfold w1. rewrite add_one_size, Hcap.
      destruct (c <? Z.of_nat (S (window.size w)))%Z eqn:E.
      - apply Z.ltb_lt in E. lia.
      - apply Z.ltb_ge in E. lia. }
    destruct (IH (knn_regressor.set_data_window w1 (after_projection x s)) w1)
      as [w' [Hw' [Hcap' Hsz']]].
    + reflexivity.
    + unfold w1. rewrite add_one_capacity. exact Hcap.
    + lia.
    + exists w'. split; [exact Hw' |]. split; [exact Hcap' |].
      rewrite Hsz'. cbn [length]. lia.
Qed.

(** C2. From a freshly constructed engine with [max_window_size = c], after
    every sequence of [learn_one] calls the window holds at most [c] entries,
    and exactly [c] once at least [c] calls were made. *)
Theorem window_capacity (n c leaf : Z) (p : Q) (method : string)
  (e : knn_regressor.KNNRegressor) (names : list string) (samples : list (dict * Q)) :
  knn_regressor.__init__ n c leaf p method = Ok e ->
  exists w,
    base_neighbors.data_window
      (knn_regressor.base
         (knn_regressor.self (feed samples (knn_regressor.mkWorld names e)))) = Some w
    /\ (0 < c)%Z
    /\ (Z.of_nat (window.size w) <= c)%Z
    /\ ((c <= Z.of_nat (length samples))%Z -> Z.of_nat (window.size w) = c).
Proof.
  intros He. unfold knn_regressor.__init__ in He.
  destruct (base_neighbors.__init__ n c leaf p) as [b |] eqn:Hb; [| discriminate].
  destruct (init_base_attributes _ _ _ _ _ Hb) as [-> [_ [Hc _]]].
  cbn [and_then] in He.
  assert (Hw : base_neighbors.data_window (knn_regressor.base e)
               = Some (window.empty c)).
  { revert He.
    change (knn_regressor.class_attr "_MEAN") with (Ok knn_regressor._MEAN).
    change (knn_regressor.class_attr "_MEDIAN") with (Ok knn_regressor._MEDIAN).
    change (knn_regressor.class_attr "_WEIGHTED_MEAN")
      with (Ok knn_regressor._WEIGHTED_MEAN).
    cbn [and_then]. destruct (negb _); [discriminate |].
    intros E. inversion E. reflexivity. }
  destruct (feed_size c samples Hc (knn_regressor.mkWorld names e) (window.empty c))
    as [w [Hw' [_ Hsz]]]; [exact Hw | reflexivity | cbn; lia |].
  exists w. split; [exact Hw' |]. split; [exact Hc |].
  cbn [window.size window.empty window.entries length] in Hsz.
  split; lia.
Qed.

(** ** The scenario of section 8 *)

Section Scenario.

Variable pnorm : Q -> vec -> Q.

Lemma scenario_ranking (d0 d1 d2 : Q) :
  d0 == 3 # 2 -> d1 == 1 # 2 -> d2 == 1 # 2 ->
  index.rank [(d0, 0%nat); (d1, 1%nat); (d2, 2%nat)]
  = [(d1, 1%nat); (d2, 2%nat); (d0, 0%nat)].
Proof.
  intros H0 H1 H2.
  assert (E12 : Qle_bool d1 d2 = true).
  { apply Qle_bool_iff. rewrite H1, H2. apply Qle_refl. }
  assert (E01 : Qle_bool d0 d1 = false).
  { destruct (Qle_bool d0 d1) eqn:E; [| reflexivity].
    apply Qle_bool_iff in E. rewrite H0, H1 in E. unfold Qle in E. cbn in E. lia. }
  assert (E02 : Qle_bool d0 d2 = false).
  { destruct (Qle_bool d0 d2) eqn:E; [| reflexivity].
    apply Qle_bool_iff in E. rewrite H0, H2 in E. unfold Qle in E. cbn in E. lia. }
  cbn [index.rank fold_right index.insert_ranked fst].
  rewrite E12. cbn [index.insert_ranked fst]. rewrite E01, E02. reflexivity.
Qed.

(** C3. With [n_neighbors=2], [max_window_size=3], [p=2] and the mean, after
    learning 1, 2, 3, 4 with targets 10, 20, 30, 40 the window holds the
    entries of targets 20, 30, 40; a query at 3.5 retrieves the entries at 3
    and 4, each at distance 1/2, and the prediction is 35. *)
Theorem aggregation_scenario :
  (forall d, pnorm 2 [d] == Qabs d) ->
  let s := feed four_samples (engine 2 3 "mean") in
  knn_regressor.__init__ 2 3 30 2 "mean" = Ok (knn_regressor.self (engine 2 3 "mean"))
  /\ base_neighbors.data_window (knn_regressor.base (knn_regressor.self s))
     = Some three_entries
  /\ snd (retrieved pnorm [("f", 7 # 2)] s three_entries) = [1%nat; 2%nat]
  /\ Forall2 Qeq (fst (retrieved pnorm [("f", 7 # 2)] s three_entries)) [1 # 2; 1 # 2]
  /\ exists v, fst (knn_regressor.predict_one pnorm [("f", 7 # 2)] s) = Ok (Some (Fin v))
               /\ v == 35.
Proof.
  intros H s.
  assert (Hs : s = knn_regressor.mkWorld ["f"]
                 (knn_regressor.mkKNNRegressor
                    (base_neighbors.mkBaseNeighbors 2 3 30 2 (Some three_entries))
                    "mean")) by reflexivity.
  assert (Hq : query_vector [("f", 7 # 2)] s = [7 # 2]) by (rewrite Hs; reflexivity).
  assert (Hr : retrieved pnorm [("f", 7 # 2)] s three_entries
               = ([pnorm 2 [3 - (7 # 2)]; pnorm 2 [4 - (7 # 2)]], [1%nat; 2%nat])).
  { unfold retrieved, index.query, index.distances. rewrite Hq, Hs.
    cbn [knn_regressor.self knn_regressor.base base_neighbors.p base_neighbors.n_neighbors
         window.features_buffer three_entries window.entries map fst snd length seq combine
         index.vsub].
    rewrite scenario_ranking by (rewrite H; reflexivity).
    reflexivity. }
  split; [reflexivity |]. split; [rewrite Hs; reflexivity |].
  rewrite Hr. cbn [fst snd]. split; [reflexivity |]. split.
  { repeat constructor; rewrite H; reflexivity. }
  rewrite (predict_one_run pnorm _ s three_entries); [| rewrite Hs; reflexivity | rewrite Hs; cbn; lia].
  rewrite Hr. cbn [fst snd]. rewrite Hs. cbn. eexists. split; [reflexivity |]. reflexivity.
Qed.
End Scenario.

(** ** The properties at concrete inputs

    The distance is the norm of order 1; the vectors have one component, on
    which every order agrees with it. *)

Lemma norm1_single (d : Q) : index.norm1 [d] == Qabs d.
Proof. unfold index.norm1, Qsum. cbn. ring. Qed.

(** The sentinel, on the window of the scenario. *)
Lemma predict_one_sentinel_witness :
  let s := feed four_samples (engine 2 3 "mean") in
  base_neighbors.data_window (knn_regressor.base (knn_regressor.self s))
  = Some three_entries
  /\ (0 < 2)%Z
  /\ ((fst (knn_regressor.predict_one (fun _ => index.norm1) [("f", 7 # 2)] s) = Ok None
       <-> (Z.of_nat (window.size three_entries) < 2)%Z)
      /\ ((2 <= Z.of_nat (window.size three_entries))%Z ->
          exists y,
            fst (knn_regressor.predict_one (fun _ => index.norm1) [("f", 7 # 2)] s)
            = Ok (Some y))).
Proof.
  intros s. split; [reflexivity |]. split; [reflexivity |].
  apply (predict_one_sentinel (fun _ => index.norm1) [("f", 7 # 2)] s three_entries);
    reflexivity.
Defined.

(** The capacity, after the four samples of the scenario. *)
Lemma window_capacity_witness :
  knn_regressor.__init__ 2 3 30 2 "mean" = Ok (knn_regressor.self (engine 2 3 "mean"))
  /\ exists w,
       base_neighbors.data_window
         (knn_regressor.base
            (knn_regressor.self
               (feed four_samples
                  (knn_regressor.mkWorld [] (knn_regressor.self (engine 2 3 "mean"))))))
       = Some w
       /\ (0 < 3)%Z
       /\ (Z.of_nat (window.size w) <= 3)%Z
       /\ ((3 <= Z.of_nat (length four_samples))%Z -> Z.of_nat (window.size w) = 3%Z).
Proof.
  split; [reflexivity |].
  apply (window_capacity 2 3 30 2 "mean" (knn_regressor.self (engine 2 3 "mean")) []
           four_samples).
  reflexivity.
Defined.

(** The scenario, with the norm of order 1. *)
Lemma aggregation_scenario_witness :
  (forall d, index.norm1 [d] == Qabs d)
  /\ exists v,
       fst (knn_regressor.predict_one (fun _ => index.norm1) [("f", 7 # 2)]
              (feed four_samples (engine 2 3 "mean")))
       = Ok (Some (Fin v))
       /\ v == 35.
Proof.
  split; [exact norm1_single |].
  apply (aggregation_scenario (fun _ => index.norm1) norm1_single).
Defined.

(** Two neighbours at 0 and 4, of targets 10 and 20, and a query at 1. *)
Lemma weighted_mean_prediction_witness :
  let s := feed two_samples (engine 2 3 "weighted_mean") in
  base_neighbors.data_window (knn_regressor.base (knn_regressor.self s))
  = Some two_entries
  /\ fst (retrieved (fun _ => index.norm1) [("f", 1)] s two_entries) = [1; 3]
  /\ weighted_mean_formula (fun _ => index.norm1) [("f", 1)] s two_entries
  /\ exists v,
       fst (knn_regressor.predict_one (fun _ => index.norm1) [("f", 1)] s)
       = Ok (Some (Fin v))
       /\ v == 25 # 2.
Proof.
  intros s.
  assert (Hd : fst (retrieved (fun _ => index.norm1) [("f", 1)] s two_entries) = [1; 3])
    by reflexivity.
  assert (Hnz : ~ Qsum (fst (retrieved (fun _ => index.norm1) [("f", 1)] s two_entries)) == 0).
  { rewrite Hd. intros E. vm_compute in E. discriminate E. }
  destruct (weighted_mean_prediction (fun _ => index.norm1) [("f", 1)] s two_entries)
    as [Hformula Hcase]; [reflexivity | reflexivity | reflexivity | | exact Hnz |].
  { vm_compute. discriminate. }
  split; [reflexivity |]. split; [exact Hd |]. split; [exact Hformula |].
  destruct (Hcase Hd) as [t1 [t2 [v [Ht [_ [Hv Hval]]]]]].
  exists v. split; [exact Hv |].
  assert (E : [t1; t2] = [10; 20]) by (rewrite <- Ht; reflexivity).
  inversion E; subst t1 t2. rewrite Hval. reflexivity.
Defined.

(** C4, as stated, fails with a single neighbour: its weight before
    renormalisation is [1 - d / d = 0], which cannot be renormalised, and the
    prediction is not-a-number.  One entry at 0, a query at 1. *)
Lemma weighted_mean_single_neighbor :
  let s := feed [([("f", 0)], 10)] (engine 1 3 "weighted_mean") in
  let w := window.mkWindow 3 [([0], 10)] in
  base_neighbors.data_window (knn_regressor.base (knn_regressor.self s)) = Some w
  /\ knn_regressor.aggregation_method (knn_regressor.self s)
     = knn_regressor._WEIGHTED_MEAN
  /\ (base_neighbors.n_neighbors (knn_regressor.base (knn_regressor.self s))
      <= Z.of_nat (window.size w))%Z
  /\ fst (retrieved (fun _ => index.norm1) [("f", 1)] s w) = [1]
  /\ ~ Qsum (fst (retrieved (fun _ => index.norm1) [("f", 1)] s w)) == 0
  /\ fst (knn_regressor.predict_one (fun _ => index.norm1) [("f", 1)] s) = Ok (Some NaN)
  /\ ~ weighted_mean_formula (fun _ => index.norm1) [("f", 1)] s w.
Proof.
  intros s w.
  assert (Hres : fst (knn_regressor.predict_one (fun _ => index.norm1) [("f", 1)] s)
                 = Ok (Some NaN)) by reflexivity.
  split; [reflexivity |]. split; [reflexivity |].
  split; [vm_compute; discriminate |]. split; [reflexivity |].
  split; [intros E; vm_compute in E; discriminate E |].
  split; [exact Hres |].
  intros [_ [v [Hv _]]]. rewrite Hres in Hv. discriminate Hv.
Qed.

(** The constructor, given ['max']. *)
Lemma init_invalid_method_witness :
  base_neighbors.__init__ 5 1000 30 2
  = Ok (base_neighbors.mkBaseNeighbors 5 1000 30 2 (Some (window.empty 1000)))
  /\ "max" <> "mean" /\ "max" <> "median" /\ "max" <> "weighted_mean"
  /\ knn_regressor.__init__ 5 1000 30 2 "max" = Raise (AttributeError "f_WEIGHTED_MEAN").
Proof.
  split; [reflexivity |].
  split; [discriminate |]. split; [discriminate |]. split; [discriminate |].
  apply (init_invalid_method 5 1000 30 2 "max"
           (base_neighbors.mkBaseNeighbors 5 1000 30 2 (Some (window.empty 1000))));
    [reflexivity | discriminate | discriminate | discriminate].
Defined.

(** One entry at 1 and a query at 1: the distance is zero. *)
Lemma weighted_mean_zero_distance_witness :
  let s := feed [([("f", 1)], 10)] (engine 1 3 "weighted_mean") in
  let w := window.mkWindow 3 [([1], 10)] in
  base_neighbors.data_window (knn_regressor.base (knn_regressor.self s)) = Some w
  /\ Qsum (fst (retrieved (fun _ => index.norm1) [("f", 1)] s w)) == 0
  /\ fst (knn_regressor.predict_one (fun _ => index.norm1) [("f", 1)] s) = Ok (Some NaN)
  /\ exists m,
       np.mean (targets_at w (snd (retrieved (fun _ => index.norm1) [("f", 1)] s w)))
       = Fin m.
Proof.
  intros s w. split; [reflexivity |]. split; [reflexivity |].
  apply (weighted_mean_zero_distance (fun _ => index.norm1) [("f", 1)] s w);
    [reflexivity | reflexivity | reflexivity | vm_compute; discriminate | reflexivity].
Defined.

(** ** The examples of the docstrings *)

Example compose_docstring :
  vectorize.compose [fun x => x + 1; fun x => x * 2; fun x => - x]%Z 10%Z = (-22)%Z.
Proof. reflexivity. Qed.

Example transform_one_docstring :
  let vectorizer := vectorize.__init__ (fun text => text) None true true None None in
  map (fun sentence => fst (vectorize.transform_one (vectorize.Str sentence) vectorizer))
    ["This is the first document."; "This document is the second document."]
  = [Ok [("this", 1); ("is", 1); ("the", 1); ("first", 1); ("document", 1)];
     Ok [("this", 1); ("document", 2); ("is", 1); ("the", 1); ("second", 1)]]%nat.
Proof. reflexivity. Qed.

(** * Further properties of the code *)

(** ** [compose] *)

Lemma fold_compose2 {A} (l : list (A -> A)) (h : A -> A) (x : A) :
  fold_left vectorize.compose2 l h x
  = h (fold_left vectorize.compose2 l (fun y => y) x).
Proof.
  revert h. induction l as [| f l IH]; intros h; cbn [fold_left]; [reflexivity |].
  rewrite IH. rewrite (IH (vectorize.compose2 (fun y => y) f)). reflexivity.
Qed.

(** X1. [compose] chains its functions in the order given: composing a list
    followed by another is composing the first list and then the second;
    composing nothing is the identity, and a function in front is applied
    first. *)
Theorem compose_app {A} (fs gs : list (A -> A)) (x : A) :
  vectorize.compose (fs ++ gs) x = vectorize.compose gs (vectorize.compose fs x)
  /\ vectorize.compose [] x = x
  /\ forall f, vectorize.compose (f :: fs) x = vectorize.compose fs (f x).
Proof.
  assert (Happ : forall (l m : list (A -> A)) (y : A),
             vectorize.compose (l ++ m) y = vectorize.compose m (vectorize.compose l y)).
  { intros l m y. unfold vectorize.compose. rewrite rev_app_distr, fold_left_app.
    apply fold_compose2. }
  split; [apply Happ |]. split; [reflexivity |].
  intros f. change (f :: fs) with ([f] ++ fs). rewrite Happ. reflexivity.
Qed.

(** ** The default tokenizer *)

Lemma string_of_list_length (l : list ascii) :
  String.length (string_of_list_ascii l) = length l.
Proof. induction l as [| c l IH]; cbn; [reflexivity | rewrite IH; reflexivity]. Qed.

Lemma flush_tokens (P : ascii -> Prop) (run : list ascii) :
  Forall P run ->
  Forall (fun t => (2 <= String.length t)%nat
                   /\ Forall P (list_ascii_of_string t)) (vectorize.flush run).
Proof.
  intros Hrun. unfold vectorize.flush.
  destruct (2 <=? length run)%nat eqn:E; [| constructor].
  apply Nat.leb_le in E. constructor; [| constructor]. split.
  - rewrite string_of_list_length, length_rev. exact E.
  - rewrite list_ascii_of_string_of_list_ascii. apply Forall_rev. exact Hrun.
Qed.

(** Every token is made of characters read, all of them word characters when
    those of the run in progress are. *)
Lemma findall_tokens (P : ascii -> Prop) (text : string) :
  Forall P (list_ascii_of_string text) ->
  forall run, Forall P run ->
  Forall (fun t => (2 <= String.length t)%nat
                   /\ Forall P (list_ascii_of_string t)) (vectorize.findall text run).
Proof.
  induction text as [| c text IH]; intros Htext run Hrun; cbn [vectorize.findall].
  - apply flush_tokens. exact Hrun.
  - cbn in Htext. inversion Htext as [| ? ? Hc Htext']; subst.
    destruct (vectorize.is_word c).
    + apply IH; [exact Htext' | constructor; assumption].
    + apply Forall_app. split; [apply flush_tokens; exact Hrun |].
      apply IH; [exact Htext' | constructor].
Qed.

Lemma findall_words (text : string) :
  forall run, Forall (fun c => vectorize.is_word c = true) run ->
  Forall token_ok (vectorize.findall text run).
Proof.
  induction text as [| c text IH]; intros run Hrun; cbn [vectorize.findall].
  - apply flush_tokens. exact Hrun.
  - destruct (vectorize.is_word c) eqn:Hc.
    + apply IH. constructor; assumption.
    + apply Forall_app. split; [apply flush_tokens; exact Hrun |].
      apply IH. constructor.
Qed.

(** X2. Every token the default tokenizer returns is at least two characters
    long and made of word characters only; a text with no word character,
    the empty text among them, has no token. *)
Theorem build_tokenizer_tokens (text : string) :
  Forall token_ok (vectorize.build_tokenizer text)
  /\ (Forall (fun c => vectorize.is_word c = false) (list_ascii_of_string text) ->
      vectorize.build_tokenizer text = []).
Proof.
  split.
  - apply findall_words. constructor.
  - unfold vectorize.build_tokenizer. induction text as [| c text IH]; intros H.
    + reflexivity.
    + cbn in H. inversion H as [| ? ? Hc Htext]; subst.
      cbn [vectorize.findall]. rewrite Hc. cbn. apply IH. exact Htext.
Qed.

Lemma is_word_lower (c : ascii) :
  vectorize.is_word (vectorize.lower_char c) = vectorize.is_word c.
Proof. destruct c as [[] [] [] [] [] [] [] []]; reflexivity. Qed.

Lemma str_lower_of_list (l : list ascii) :
  vectorize.str_lower (string_of_list_ascii l)
  = string_of_list_ascii (map vectorize.lower_char l).
Proof. induction l as [| c l IH]; cbn; [reflexivity | rewrite IH; reflexivity]. Qed.

Lemma flush_lower (run : list ascii) :
  vectorize.flush (map vectorize.lower_char run)
  = map vectorize.str_lower (vectorize.flush run).
Proof.
  unfold vectorize.flush. rewrite length_map.
  destruct (2 <=? length run)%nat; [| reflexivity].
  cbn [map]. rewrite str_lower_of_list, map_rev. reflexivity.
Qed.

Lemma findall_lower (text : string) (run : list ascii) :
  vectorize.findall (vectorize.str_lower text) (map vectorize.lower_char run)
  = map vectorize.str_lower (vectorize.findall text run).
Proof.
  revert run. induction text as [| c text IH]; intros run;
    cbn [vectorize.findall vectorize.str_lower].
  - apply flush_lower.
  - rewrite is_word_lower. destruct (vectorize.is_word c).
    + apply (IH (c :: run)).
    + rewrite map_app, flush_lower. f_equal. apply (IH []).
Qed.

(** X3. Lower-casing and tokenizing commute: the tokens of the lower-cased
    text are the lower-cased tokens of the text, in the same order. *)
Theorem build_tokenizer_lower (text : string) :
  vectorize.build_tokenizer (vectorize.str_lower text)
  = map vectorize.str_lower (vectorize.build_tokenizer text).
Proof. apply (findall_lower text []). Qed.

(** ** Counting tokens *)

Lemma count_of_count_one (token t : string) (c : vectorize.Counter) :
  count_of (vectorize.count_one token c) t
  = (count_of c t + if String.eqb token t then 1 else 0)%nat.
Proof.
  unfold count_of. induction c as [| [k m] c IH]; cbn [vectorize.count_one tfidf.lookup].
  - destruct (String.eqb token t); reflexivity.
  - destruct (String.eqb k token) eqn:Ek; cbn [tfidf.lookup].
    + apply String.eqb_eq in Ek. subst k.
      destruct (String.eqb token t); [lia | rewrite Nat.add_0_r; reflexivity].
    + destruct (String.eqb k t) eqn:Et; [| exact IH].
      apply String.eqb_eq in Et. subst k. rewrite String.eqb_sym, Ek. lia.
Qed.

Lemma count_of_counter (tokens : list string) (c : vectorize.Counter) (t : string) :
  count_of (fold_left (fun c token => vectorize.count_one token c) tokens c) t
  = (count_of c t + count_occ string_dec tokens t)%nat.
Proof.
  revert c. induction tokens as [| token tokens IH]; intros c; cbn [fold_left count_occ].
  - lia.
  - rewrite IH, count_of_count_one.
    destruct (string_dec token t) as [-> | Hne].
    + rewrite String.eqb_refl. lia.
    + rewrite (proj2 (String.eqb_neq token t) Hne). lia.
Qed.

Lemma keys_count_one (token : string) (c : vectorize.Counter) :
  map fst (vectorize.count_one token c)
  = if mem token (map fst c) then map fst c else map fst c ++ [token].
Proof.
  induction c as [| [k m] c IH]; cbn [vectorize.count_one map fst mem existsb app].
  - reflexivity.
  - rewrite (String.eqb_sym token k). destruct (String.eqb k token); cbn [orb map fst].
    + reflexivity.
    + rewrite IH. unfold mem. destruct (existsb _ _); reflexivity.
Qed.

Lemma keys_counter (tokens : list string) (c : vectorize.Counter) :
  NoDup (map fst c) ->
  NoDup (map fst (fold_left (fun c token => vectorize.count_one token c) tokens c))
  /\ forall k, In k (map fst (fold_left (fun c token => vectorize.count_one token c) tokens c))
               <-> In k (map fst c) \/ In k tokens.
Proof.
  revert c. induction tokens as [| token tokens IH]; intros c Hc; cbn [fold_left].
  - split; [exact Hc |]. intros k. cbn. tauto.
  - assert (Hnd : NoDup (map fst (vectorize.count_one token c))).
    { rewrite keys_count_one. destruct (mem token (map fst c)) eqn:E; [exact Hc |].
      apply mem_not_In in E. apply NoDup_app; [exact Hc | repeat constructor; intros [] |].
      intros a Ha [<- | []]. contradiction. }
    destruct (IH _ Hnd) as [H1 H2]. split; [exact H1 |].
    intros k. rewrite H2, keys_count_one.
    destruct (mem token (map fst c)) eqn:E.
    + apply mem_In in E. cbn. split; [tauto |]. intros [H | [<- | H]]; tauto.
    + rewrite in_app_iff. cbn. tauto.
Qed.

Lemma fold_add (l : list nat) (a : nat) :
  fold_left Nat.add l a = (a + fold_left Nat.add l 0)%nat.
Proof.
  revert a. induction l as [| b l IH]; intros a; cbn; [lia |].
  rewrite IH, (IH b). lia.
Qed.

Lemma total_cons (k : string) (m : nat) (c : vectorize.Counter) :
  tfidf.total ((k, m) :: c) = (m + tfidf.total c)%nat.
Proof. unfold tfidf.total. cbn. apply fold_add. Qed.

Lemma total_count_one (token : string) (c : vectorize.Counter) :
  tfidf.total (vectorize.count_one token c) = S (tfidf.total c).
Proof.
  induction c as [| [k m] c IH]; cbn [vectorize.count_one]; [reflexivity |].
  destruct (String.eqb k token); rewrite !total_cons; [| rewrite IH]; lia.
Qed.

Lemma total_counter (tokens : list string) (c : vectorize.Counter) :
  tfidf.total (fold_left (fun c token => vectorize.count_one token c) tokens c)
  = (tfidf.total c + length tokens)%nat.
Proof.
  revert c. induction tokens as [| token tokens IH]; intros c; cbn [fold_left length].
  - lia.
  - rewrite IH, total_count_one. lia.
Qed.

Lemma transform_one_text (v : vectorize.CountVectorizer) (text : string) :
  vectorize.on v = None ->
  vectorize.transform_one (vectorize.Str text) v
  = (Ok (vectorize.counter (vectorize.tokenizer v (vectorize.preprocessor v text))), v).
Proof.
  intros Hon.
  unfold vectorize.transform_one, vectorize._get_text, bind, gets. rewrite Hon.
  reflexivity.
Qed.

(** X4. On a text, with no [on], [transform_one] returns a counter in which
    every token is a key once, the number stored for a token is the number of
    times the tokenizer returned it, and the numbers add up to the number of
    tokens. *)
Theorem transform_one_counts (v : vectorize.CountVectorizer) (text : string) :
  vectorize.on v = None ->
  let tokens := vectorize.tokenizer v (vectorize.preprocessor v text) in
  exists c,
    fst (vectorize.transform_one (vectorize.Str text) v) = Ok c
    /\ NoDup (map fst c)
    /\ (forall t, count_of c t = count_occ string_dec tokens t)
    /\ (forall t, In t (map fst c) <-> In t tokens)
    /\ tfidf.total c = length tokens.
Proof.
  intros Hon tokens. exists (vectorize.counter tokens).
  split; [rewrite (transform_one_text v text Hon); reflexivity |].
  unfold vectorize.counter.
  destruct (keys_counter tokens [] (NoDup_nil _)) as [Hnd Hin].
  split; [exact Hnd |]. split; [intros t; apply count_of_counter |].
  split; [| apply total_counter].
  intros t. rewrite Hin. cbn. tauto.
Qed.

Lemma transform_one_counts_witness :
  let v := vectorize.__init__ (fun text => text) None true true None None in
  vectorize.on v = None
  /\ exists c,
       fst (vectorize.transform_one (vectorize.Str "This document is the second document.") v)
       = Ok c
       /\ count_of c "document" = 2%nat
       /\ tfidf.total c = 6%nat.
Proof.
  intros v. split; [reflexivity |].
  destruct (transform_one_counts v "This document is the second document.")
    as [c [Hc [_ [Hcount [_ Htotal]]]]]; [reflexivity |].
  exists c. split; [exact Hc |]. split.
  - rewrite Hcount. reflexivity.
  - rewrite Htotal. reflexivity.
Defined.

(** ** The default preprocessing *)

Lemma is_upper_lower (c : ascii) : is_upper (vectorize.lower_char c) = false.
Proof. destruct c as [[] [] [] [] [] [] [] []]; reflexivity. Qed.

Lemma str_lower_no_upper (text : string) : no_upper (vectorize.str_lower text).
Proof.
  unfold no_upper. induction text as [| c text IH]; cbn; constructor.
  - apply is_upper_lower.
  - exact IH.
Qed.

Section Preprocessing.

Variable strip_accents_unicode : string -> string.

(** The accents are stripped first and the case lowered after. *)
Lemma build_preprocessor_order (strip_accents lowercase : bool) (text : string) :
  vectorize.build_preprocessor strip_accents_unicode strip_accents lowercase text
  = (if lowercase then vectorize.str_lower else fun t => t)
      ((if strip_accents then strip_accents_unicode else fun t => t) text).
Proof. destruct strip_accents, lowercase; reflexivity. Qed.

(** X5. A vectorizer built with [lowercase=True] and the default preprocessor
    and tokenizer, whatever [strip_accents] is, gives a text a counter whose
    keys are all at least two word characters long and hold no upper-case
    letter. *)
Theorem transform_one_default_keys (strip_accents : bool) (text : string) :
  let v := vectorize.__init__ strip_accents_unicode None strip_accents true None None in
  exists c,
    fst (vectorize.transform_one (vectorize.Str text) v) = Ok c
    /\ Forall (fun item => token_ok (fst item) /\ no_upper (fst item)) c.
Proof.
  intros v.
  exists (vectorize.counter (vectorize.tokenizer v (vectorize.preprocessor v text))).
  split; [rewrite (transform_one_text v text eq_refl); reflexivity |].
  apply Forall_forall. intros [k m] Hk. cbn [fst].
  assert (Hk' : In k (vectorize.tokenizer v (vectorize.preprocessor v text))).
  { destruct (keys_counter (vectorize.tokenizer v (vectorize.preprocessor v text)) []
                (NoDup_nil _)) as [_ Hin].
    apply (in_map fst) in Hk. cbn [fst] in Hk. apply Hin in Hk.
    destruct Hk as [[] | Hk]. exact Hk. }
  cbn [v vectorize.__init__ vectorize.tokenizer vectorize.preprocessor] in Hk'.
  rewrite build_preprocessor_order in Hk'. unfold vectorize.build_tokenizer in Hk'.
  split.
  - pose proof (findall_words
      (vectorize.str_lower ((if strip_accents then strip_accents_unicode else fun t => t) text))
      [] (Forall_nil _)) as H.
    rewrite Forall_forall in H. apply H. exact Hk'.
  - pose proof (findall_tokens (fun c => is_upper c = false) _
      (str_lower_no_upper ((if strip_accents then strip_accents_unicode else fun t => t) text))
      [] (Forall_nil _)) as H.
    rewrite Forall_forall in H. apply (H k Hk').
Qed.

End Preprocessing.

(** ** The feature [on] *)

(** X6. With [on] set, [transform_one] vectorizes the text the [dict] holds
    under that key, as it would the text alone with no [on]; a [dict] without
    the key raises [KeyError] with the key, and a bare text raises
    [TypeError]. The vectorizer is left as it was each time. *)
Theorem transform_one_on (v : vectorize.CountVectorizer) (key : string)
  (fields : list (string * string)) (text : string) :
  vectorize.on v = Some key ->
  (vectorize.lookup fields key = Some text ->
   vectorize.transform_one (vectorize.Dict fields) v
   = (fst (vectorize.transform_one (vectorize.Str text) (with_on None v)), v))
  /\ (vectorize.lookup fields key = None ->
      vectorize.transform_one (vectorize.Dict fields) v = (Raise (KeyError key), v))
  /\ vectorize.transform_one (vectorize.Str text) v
     = (Raise (TypeError "string indices must be integers"), v).
Proof.
  intros Hon.
  unfold vectorize.transform_one, vectorize._get_text, vectorize.getitem, bind, gets.
  rewrite Hon. cbn [with_on vectorize.on].
  split; [| split].
  - intros H. rewrite H. reflexivity.
  - intros H. rewrite H. reflexivity.
  - reflexivity.
Qed.

Lemma transform_one_on_witness :
  let v := vectorize.__init__ (fun text => text) (Some "body") true true None None in
  vectorize.on v = Some "body"
  /\ vectorize.transform_one (vectorize.Dict [("title", "One"); ("body", "to be or not to be")]) v
     = (Ok [("to", 2); ("be", 2); ("or", 1); ("not", 1)]%nat, v)
  /\ vectorize.transform_one (vectorize.Dict [("title", "One")]) v
     = (Raise (KeyError "body"), v).
Proof.
  intros v. split; [reflexivity |].
  destruct (transform_one_on v "body" [("title", "One"); ("body", "to be or not to be")]
              "to be or not to be") as [Hfound _]; [reflexivity |].
  destruct (transform_one_on v "body" [("title", "One")] "") as [_ [Hmissing _]];
    [reflexivity |].
  split; [rewrite Hfound by reflexivity; reflexivity |].
  apply Hmissing. reflexivity.
Defined.

(** ** [TFIDFVectorizer] *)

Lemma preserves_proj {S T A} (proj : S -> T) (m : M S A) :
  preserves (fun s => s) m -> preserves proj m.
Proof. intros H s. rewrite (H s). reflexivity. Qed.

Lemma preserves_zoom_all {S T A} (get : S -> T) (upd : T -> S -> S) (m : M T A) :
  (forall s, upd (get s) s = s) ->
  preserves (fun t => t) m -> preserves (fun s => s) (zoom get upd m).
Proof.
  intros Hupd Hm s. unfold zoom. specialize (Hm (get s)).
  destruct (m (get s)) as [r t]. cbn in *. subst t. apply Hupd.
Qed.

Lemma preserves_foldM {S T A B} (proj : S -> T) (f : B -> A -> M S B) (l : list A) :
  (forall b a, preserves proj (f b a)) -> forall acc, preserves proj (tfidf.foldM f l acc).
Proof.
  intros Hf. induction l as [| a l IH]; intros acc; cbn [tfidf.foldM].
  - apply preserves_ret.
  - apply preserves_bind; [apply Hf | intros b; apply IH].
Qed.

Lemma preserves_truediv {S T} (proj : S -> T) (a b : Q) :
  preserves proj (@tfidf.truediv S a b).
Proof. unfold tfidf.truediv. destruct (Qeq_bool b 0); auto with frame. Qed.

#[local] Hint Resolve preserves_truediv : frame.

Lemma set_mixin_same (s : tfidf.TFIDFVectorizer) : tfidf.set_mixin (tfidf.mixin s) s = s.
Proof. destruct s; reflexivity. Qed.

Lemma set_tfs_same (s : tfidf.TFIDFVectorizer) : tfidf.set_tfs (tfidf.tfs s) s = s.
Proof. destruct s; reflexivity. Qed.

Lemma tfidf_get_text_preserves (x : vectorize.input) :
  preserves (fun s => s) (tfidf._get_text x).
Proof.
  unfold tfidf._get_text. apply preserves_zoom_all;
    [exact set_mixin_same | apply get_text_preserves].
Qed.

Lemma tfs_transform_one_preserves (x : vectorize.input) :
  preserves (fun s => s) (zoom tfidf.tfs tfidf.set_tfs (vectorize.transform_one x)).
Proof.
  apply preserves_zoom_all; [exact set_tfs_same | apply transform_one_preserves].
Qed.

(** Reading a [dict] after an assignment. *)
Lemma count_of_assign (d : list (string * nat)) (key t : string) (c : nat) :
  count_of (tfidf.assign d key c) t = if String.eqb key t then c else count_of d t.
Proof.
  unfold count_of. induction d as [| [k m] d IH]; cbn [tfidf.assign tfidf.lookup].
  - destruct (String.eqb key t); reflexivity.
  - destruct (String.eqb k key) eqn:Ek; cbn [tfidf.lookup].
    + apply String.eqb_eq in Ek. subst k. destruct (String.eqb key t); reflexivity.
    + destruct (String.eqb k t) eqn:Et; [| exact IH].
      apply String.eqb_eq in Et. subst k. rewrite String.eqb_sym, Ek. reflexivity.
Qed.

(** Entering a missing key with 0 changes no number read. *)
Lemma count_of_default (d : list (string * nat)) (key t : string) :
  tfidf.lookup d key = None -> count_of (d ++ [(key, 0%nat)]) t = count_of d t.
Proof.
  unfold count_of. induction d as [| [k m] d IH]; cbn [tfidf.lookup app]; intros H.
  - destruct (String.eqb key t); reflexivity.
  - destruct (String.eqb k key) eqn:Ek; [discriminate |].
    destruct (String.eqb k t); [reflexivity | apply IH; exact H].
Qed.

(** What [self.dfs[term]] returns and what it leaves. *)
Lemma dfs_getitem_run (term : string) (s : tfidf.TFIDFVectorizer) :
  exists d,
    tfidf.dfs_getitem term s = (Ok (count_of (tfidf.dfs s) term), tfidf.set_dfs d s)
    /\ forall t, count_of d t = count_of (tfidf.dfs s) t.
Proof.
  unfold tfidf.dfs_getitem, bind, gets, modify, ret, count_of.
  destruct (tfidf.lookup (tfidf.dfs s) term) as [c |] eqn:E.
  - exists (tfidf.dfs s). split; [destruct s; reflexivity | reflexivity].
  - exists (tfidf.dfs s ++ [(term, 0%nat)]). split; [reflexivity |].
    intros t. apply (count_of_default _ _ _ E).
Qed.

Section Tfidf.

Variable strip_accents_unicode : string -> string.
Variable math_log : Q -> Q.
Variable math_sqrt : Q -> Q.
Variable inherited_fit_one : vectorize.input -> M vectorize.CountVectorizer unit.

(** X7. A [TFIDFVectorizer] whose [on] is set cannot be given the [dict] it
    asks for: it takes the text out of the [dict] and hands it to its count
    vectorizer, which has the same [on] and looks the key up in the text.
    [transform_one] raises [TypeError], and so does [fit_one] when the
    inherited [fit_one] of the count vectorizer returns; the constructor
    builds such an instance whenever it is given an [on]. *)
Theorem tfidf_on_raises (s : tfidf.TFIDFVectorizer) (key : string)
  (fields : list (string * string)) (text : string) :
  vectorize.on (tfidf.mixin s) = Some key ->
  vectorize.on (tfidf.tfs s) = Some key ->
  vectorize.lookup fields key = Some text ->
  tfidf.transform_one math_log math_sqrt (vectorize.Dict fields) s
  = (Raise (TypeError "string indices must be integers"), s)
  /\ ((forall x v, inherited_fit_one x v = (Ok tt, v)) ->
      tfidf.fit_one inherited_fit_one (vectorize.Dict fields) s
      = (Raise (TypeError "string indices must be integers"), s))
  /\ (forall strip_accents lowercase preprocessor tokenizer normalize,
        let fresh := tfidf.__init__ strip_accents_unicode (Some key) strip_accents
                       lowercase preprocessor tokenizer normalize in
        vectorize.on (tfidf.mixin fresh) = Some key
        /\ vectorize.on (tfidf.tfs fresh) = Some key).
Proof.
  intros Hm Ht Hk.
  assert (Htext : tfidf._get_text (vectorize.Dict fields) s = (Ok (vectorize.Str text), s)).
  { unfold tfidf._get_text, zoom, vectorize._get_text, vectorize.getitem, bind, gets.
    rewrite Hm, Hk. cbn. rewrite set_mixin_same. reflexivity. }
  assert (Hcount : vectorize.transform_one (vectorize.Str text) (tfidf.tfs s)
                   = (Raise (TypeError "string indices must be integers"), tfidf.tfs s)).
  { unfold vectorize.transform_one, vectorize._get_text, vectorize.getitem, bind, gets.
    rewrite Ht. reflexivity. }
  split; [| split].
  - unfold tfidf.transform_one. unfold bind at 1. rewrite Htext.
    unfold bind at 1. unfold zoom. rewrite Hcount. rewrite set_tfs_same. reflexivity.
  - intros Hfit. unfold tfidf.fit_one. unfold bind at 1. rewrite Htext.
    unfold bind at 1. unfold zoom. unfold bind at 1. rewrite Hfit, Hcount.
    rewrite set_tfs_same. reflexivity.
  - intros. split; reflexivity.
Qed.

Lemma dfs_getitem_but_dfs (term : string) : preserves but_dfs (tfidf.dfs_getitem term).
Proof.
  intros s. destruct (dfs_getitem_run term s) as [d [E _]]. rewrite E. reflexivity.
Qed.

Lemma dfs_getitem_count_of (term t : string) :
  preserves (fun s => count_of (tfidf.dfs s) t) (tfidf.dfs_getitem term).
Proof.
  intros s. destruct (dfs_getitem_run term s) as [d [E H]]. rewrite E. cbn. apply H.
Qed.

Lemma compute_tfidfs_preserves {T} (proj : tfidf.TFIDFVectorizer -> T)
  (term_counts : vectorize.Counter) :
  (forall term, preserves proj (tfidf.dfs_getitem term)) ->
  preserves proj (tfidf.compute_tfidfs math_log math_sqrt term_counts).
Proof.
  intros Hget. unfold tfidf.compute_tfidfs.
  apply preserves_bind.
  - apply preserves_foldM. intros acc [term count]. unfold tfidf.tfidf_of.
    apply preserves_bind; [apply preserves_truediv | intros tf].
    apply preserves_bind; [apply preserves_gets | intros docs].
    apply preserves_bind; [apply Hget | intros df].
    apply preserves_bind; [apply preserves_truediv | intros ratio].
    apply preserves_ret.
  - intros tfidfs. apply preserves_bind; [apply preserves_gets | intros [|]].
    + apply preserves_mapM. intros item.
      apply preserves_bind; [apply preserves_truediv | intros v; apply preserves_ret].
    + apply preserves_ret.
Qed.

Lemma tfidf_transform_one_preserves {T} (proj : tfidf.TFIDFVectorizer -> T)
  (x : vectorize.input) :
  (forall term, preserves proj (tfidf.dfs_getitem term)) ->
  preserves proj (tfidf.transform_one math_log math_sqrt x).
Proof.
  intros Hget. unfold tfidf.transform_one.
  apply preserves_bind; [apply preserves_proj, tfidf_get_text_preserves | intros text].
  apply preserves_bind; [apply preserves_proj, tfs_transform_one_preserves | intros c].
  apply compute_tfidfs_preserves. exact Hget.
Qed.

(** X8. [TFIDFVectorizer.transform_one] learns nothing: whether it returns or
    raises, the number of documents [n], the count vectorizer, the
    configuration and every document frequency are as before.  Reading
    [self.dfs[term]] may enter an unseen term in [dfs], with frequency 0. *)
Theorem tfidf_transform_one_frame (x : vectorize.input) (s : tfidf.TFIDFVectorizer) :
  let s' := snd (tfidf.transform_one math_log math_sqrt x s) in
  tfidf.n s' = tfidf.n s
  /\ tfidf.tfs s' = tfidf.tfs s
  /\ tfidf.mixin s' = tfidf.mixin s
  /\ tfidf.normalize s' = tfidf.normalize s
  /\ forall term, count_of (tfidf.dfs s') term = count_of (tfidf.dfs s) term.
Proof.
  intros s'.
  pose proof (tfidf_transform_one_preserves but_dfs x dfs_getitem_but_dfs s) as H.
  fold s' in H. unfold but_dfs in H. inversion H as [[H1 H2 H3 H4]].
  repeat split; try assumption.
  intros term.
  apply (tfidf_transform_one_preserves (fun s => count_of (tfidf.dfs s) term) x
           (fun t => dfs_getitem_count_of t term) s).
Qed.

End Tfidf.

(** The constructor given [on='body'], and a [dict] with that key. *)
Lemma tfidf_on_raises_witness :
  let s := tfidf.__init__ (fun text => text) (Some "body") true true None None true in
  let x := vectorize.Dict [("body", "to be or not to be")] in
  vectorize.on (tfidf.mixin s) = Some "body"
  /\ vectorize.on (tfidf.tfs s) = Some "body"
  /\ tfidf.transform_one (fun _ => 0) (fun q => q) x s
     = (Raise (TypeError "string indices must be integers"), s)
  /\ tfidf.fit_one (fun _ => ret tt) x s
     = (Raise (TypeError "string indices must be integers"), s).
Proof.
  intros s x.
  destruct (tfidf_on_raises (fun text => text) (fun _ => 0) (fun q => q) (fun _ => ret tt)
              s "body" [("body", "to be or not to be")] "to be or not to be")
    as [Ht [Hf _]]; [reflexivity | reflexivity | reflexivity |].
  split; [reflexivity |]. split; [reflexivity |]. split; [exact Ht |].
  apply Hf. reflexivity.
Defined.

(** *** Learning a document *)

Lemma increment_run (term : string) (s : tfidf.TFIDFVectorizer) :
  exists d,
    tfidf.increment term s = (Ok tt, tfidf.set_dfs d s)
    /\ forall t, count_of d t
                 = (count_of (tfidf.dfs s) t + if String.eqb term t then 1 else 0)%nat.
Proof.
  destruct (dfs_getitem_run term s) as [d [E H]].
  exists (tfidf.assign d term (count_of (tfidf.dfs s) term + 1)%nat). split.
  - unfold tfidf.increment, bind. rewrite E.
    unfold tfidf.dfs_setitem, modify. destruct s; reflexivity.
  - intros t. rewrite count_of_assign. destruct (String.eqb term t) eqn:Et.
    + apply String.eqb_eq in Et. subst t. reflexivity.
    + rewrite H. lia.
Qed.

Lemma increments_run (terms : list string) (s : tfidf.TFIDFVectorizer) :
  exists d us,
    mapM tfidf.increment terms s = (Ok us, tfidf.set_dfs d s)
    /\ forall t, count_of d t
                 = (count_of (tfidf.dfs s) t + count_occ string_dec terms t)%nat.
Proof.
  revert s. induction terms as [| term terms IH]; intros s.
  - exists (tfidf.dfs s), []. split; [destruct s; reflexivity |].
    intros t. cbn. lia.
  - destruct (increment_run term s) as [d1 [E1 H1]].
    destruct (IH (tfidf.set_dfs d1 s)) as [d2 [us [E2 H2]]].
    exists d2, (tt :: us). split.
    + cbn [mapM]. unfold bind at 1. rewrite E1. unfold bind at 1. rewrite E2.
      destruct s; reflexivity.
    + intros t. rewrite H2. cbn [tfidf.dfs tfidf.set_dfs]. rewrite H1.
      cbn [count_occ]. destruct (string_dec term t) as [-> | Hne].
      * rewrite String.eqb_refl. lia.
      * rewrite (proj2 (String.eqb_neq term t) Hne). lia.
Qed.

Lemma count_occ_NoDup (l : list string) (t : string) :
  NoDup l -> count_occ string_dec l t = if in_dec string_dec t l then 1%nat else 0%nat.
Proof.
  intros Hnd. destruct (in_dec string_dec t l) as [Hin | Hout].
  - apply NoDup_count_occ' with (decA := string_dec) in Hin; assumption.
  - apply count_occ_not_In. exact Hout.
Qed.

Section TfidfLearning.

Variable math_log : Q -> Q.
Variable math_sqrt : Q -> Q.
Variable inherited_fit_one : vectorize.input -> M vectorize.CountVectorizer unit.

Lemma tfidf_get_text_plain (text : string) (s : tfidf.TFIDFVectorizer) :
  vectorize.on (tfidf.mixin s) = None ->
  tfidf._get_text (vectorize.Str text) s = (Ok (vectorize.Str text), s).
Proof.
  intros Hm. unfold tfidf._get_text, zoom, vectorize._get_text, bind, gets.
  rewrite Hm. cbn. rewrite set_mixin_same. reflexivity.
Qed.

(** X9. With no [on], and the inherited [fit_one] of the count vectorizer
    returning without a change, [fit_one] on a text counts one more document
    and adds one to the document frequency of each term of the text, once
    however often the term occurs; the other frequencies and the rest of the
    instance stay. *)
Theorem tfidf_fit_one_counts (text : string) (s : tfidf.TFIDFVectorizer) :
  (forall x v, inherited_fit_one x v = (Ok tt, v)) ->
  vectorize.on (tfidf.mixin s) = None ->
  vectorize.on (tfidf.tfs s) = None ->
  let tokens := vectorize.tokenizer (tfidf.tfs s)
                  (vectorize.preprocessor (tfidf.tfs s) text) in
  exists s',
    tfidf.fit_one inherited_fit_one (vectorize.Str text) s = (Ok tt, s')
    /\ tfidf.n s' = (tfidf.n s + 1)%nat
    /\ (tfidf.mixin s', tfidf.normalize s', tfidf.tfs s')
       = (tfidf.mixin s, tfidf.normalize s, tfidf.tfs s)
    /\ forall t, count_of (tfidf.dfs s') t
                 = (count_of (tfidf.dfs s) t
                    + if in_dec string_dec t tokens then 1 else 0)%nat.
Proof.
  intros Hfit Hm Ht tokens.
  destruct (keys_counter tokens [] (NoDup_nil _)) as [Hnd Hin].
  fold (vectorize.counter tokens) in Hnd, Hin.
  destruct (increments_run (map fst (vectorize.counter tokens)) s) as [d [us [E H]]].
  exists (tfidf.set_n (tfidf.n s + 1)%nat (tfidf.set_dfs d s)). split.
  - unfold tfidf.fit_one. unfold bind at 1. rewrite (tfidf_get_text_plain text s Hm).
    unfold bind at 1. unfold zoom. unfold bind at 1.
    rewrite Hfit, (transform_one_text _ text Ht), set_tfs_same.
    fold tokens. unfold bind at 1. rewrite E. reflexivity.
  - split; [reflexivity |]. split; [reflexivity |].
    intros t. cbn [tfidf.dfs tfidf.set_n tfidf.set_dfs]. rewrite H.
    rewrite (count_occ_NoDup _ t Hnd).
    destruct (in_dec string_dec t (map fst (vectorize.counter tokens))) as [Hk | Hk];
      destruct (in_dec string_dec t tokens) as [Hl | Hl]; try reflexivity; exfalso.
    + apply Hin in Hk. destruct Hk as [[] | Hk]. contradiction.
    + apply Hk. apply Hin. right. exact Hl.
Qed.

End TfidfLearning.

(** A fresh instance with the default arguments learns a document. *)
Lemma tfidf_fit_one_counts_witness :
  let s := tfidf.__init__ (fun text => text) None true true None None true in
  (forall (x : vectorize.input) (v : vectorize.CountVectorizer),
      (fun _ => ret tt) x v = (Ok tt, v))
  /\ exists s',
       tfidf.fit_one (fun _ => ret tt)
         (vectorize.Str "This document is the second document.") s = (Ok tt, s')
       /\ tfidf.n s' = 1%nat
       /\ count_of (tfidf.dfs s') "document" = 1%nat
       /\ count_of (tfidf.dfs s') "first" = 0%nat.
Proof.
  intros s. split; [reflexivity |].
  destruct (tfidf_fit_one_counts (fun _ => ret tt)
              "This document is the second document." s)
    as [s' [E [Hn [_ Hdf]]]]; [reflexivity | reflexivity | reflexivity |].
  exists s'. split; [exact E |]. split; [exact Hn |].
  split; rewrite Hdf; reflexivity.
Defined.

(** *** The weights returned *)

Lemma fold_left_same {A B} (f g : A -> B -> A) (l : list B) (a : A) :
  (forall a b, f a b = g a b) -> fold_left f l a = fold_left g l a.
Proof.
  intros H. revert a. induction l as [| b l IH]; intros a; cbn; [reflexivity |].
  rewrite H. apply IH.
Qed.

Lemma of_nat_not_zero (k : nat) : k <> 0%nat -> Qeq_bool (np.of_nat k) 0 = false.
Proof.
  intros Hk. apply Qeq_bool_false. unfold np.of_nat, Qeq. cbn. lia.
Qed.

Lemma tfidf_value_same (math_log : Q -> Q) (s s' : tfidf.TFIDFVectorizer)
  (n_terms : nat) (item : string * nat) :
  tfidf.n s' = tfidf.n s ->
  (forall t, count_of (tfidf.dfs s') t = count_of (tfidf.dfs s) t) ->
  tfidf_value math_log s' n_terms item = tfidf_value math_log s n_terms item.
Proof. intros Hn Hd. unfold tfidf_value. rewrite Hn, Hd. reflexivity. Qed.

(** One turn of the loop of [compute_tfidfs]. *)
Lemma tfidf_of_run (math_log : Q -> Q) (n_terms : nat) (acc : list (string * Q))
  (term : string) (count : nat) (s : tfidf.TFIDFVectorizer) :
  n_terms <> 0%nat ->
  exists d,
    tfidf.tfidf_of math_log n_terms acc (term, count) s
    = (Ok (tfidf.assign acc term (tfidf_value math_log s n_terms (term, count))),
       tfidf.set_dfs d s)
    /\ forall t, count_of d t = count_of (tfidf.dfs s) t.
Proof.
  intros Hn. destruct (dfs_getitem_run term s) as [d [E H]].
  exists d. split; [| exact H].
  unfold tfidf.tfidf_of, bind, tfidf.truediv, gets, ret.
  rewrite (of_nat_not_zero _ Hn). rewrite E.
  rewrite of_nat_not_zero by discriminate. reflexivity.
Qed.

(** The loop of [compute_tfidfs] assigns each term its weight. *)
Lemma tfidf_loop (math_log : Q -> Q) (n_terms : nat) (items : vectorize.Counter) :
  n_terms <> 0%nat ->
  forall (acc : list (string * Q)) (s : tfidf.TFIDFVectorizer),
  exists d,
    tfidf.foldM (tfidf.tfidf_of math_log n_terms) items acc s
    = (Ok (fold_left (fun acc item =>
                        tfidf.assign acc (fst item) (tfidf_value math_log s n_terms item))
             items acc),
       tfidf.set_dfs d s)
    /\ forall t, count_of d t = count_of (tfidf.dfs s) t.
Proof.
  intros Hn. induction items as [| [term count] items IH]; intros acc s.
  - exists (tfidf.dfs s). split; [destruct s; reflexivity | reflexivity].
  - destruct (tfidf_of_run math_log n_terms acc term count s Hn) as [d1 [E1 H1]].
    destruct (IH (tfidf.assign acc term (tfidf_value math_log s n_terms (term, count)))
                (tfidf.set_dfs d1 s)) as [d2 [E2 H2]].
    exists d2. split.
    + cbn [tfidf.foldM fold_left fst]. unfold bind. rewrite E1, E2.
      assert (Hs : tfidf.set_dfs d2 (tfidf.set_dfs d1 s) = tfidf.set_dfs d2 s)
        by (destruct s; reflexivity).
      rewrite Hs.
      rewrite (fold_left_same _
                 (fun acc item =>
                    tfidf.assign acc (fst item) (tfidf_value math_log s n_terms item)));
        [reflexivity |].
      intros a item. f_equal.
      apply tfidf_value_same; [reflexivity |]. intros t. cbn. apply H1.
    + intros t. rewrite H2. cbn. apply H1.
Qed.

Lemma assign_fresh {V} (d : list (string * V)) (key : string) (value : V) :
  ~ In key (map fst d) -> tfidf.assign d key value = d ++ [(key, value)].
Proof.
  induction d as [| [k v] d IH]; cbn; intros H; [reflexivity |].
  destruct (String.eqb k key) eqn:E.
  - apply String.eqb_eq in E. tauto.
  - rewrite IH by tauto. reflexivity.
Qed.

Lemma fold_assign {V} (value : string * nat -> V) (items : vectorize.Counter) :
  NoDup (map fst items) ->
  forall acc : list (string * V),
    (forall k, In k (map fst items) -> ~ In k (map fst acc)) ->
    fold_left (fun acc item => tfidf.assign acc (fst item) (value item)) items acc
    = acc ++ map (fun item => (fst item, value item)) items.
Proof.
  induction items as [| [k m] items IH]; intros Hnd acc Hacc; cbn [fold_left map fst].
  - rewrite app_nil_r. reflexivity.
  - cbn in Hnd. inversion Hnd as [| ? ? Hk Hnd']; subst.
    rewrite assign_fresh by (apply Hacc; left; reflexivity).
    rewrite IH; [rewrite <- app_assoc; reflexivity | exact Hnd' |].
    intros k' Hk' Hin. rewrite map_app, in_app_iff in Hin. cbn in Hin.
    destruct Hin as [Hin | [<- | []]].
    + apply (Hacc k'); [right; exact Hk' | exact Hin].
    + contradiction.
Qed.

Lemma normalise_run {S} (norm : Q) (tfidfs : list (string * Q)) (s : S) :
  Qeq_bool norm 0 = false ->
  mapM (fun item => v <- tfidf.truediv (snd item) norm ;; ret (fst item, v)) tfidfs s
  = (Ok (map (fun item => (fst item, snd item / norm)) tfidfs), s).
Proof.
  intros Hn. induction tfidfs as [| item tfidfs IH]; cbn [mapM map]; [reflexivity |].
  unfold bind at 1. unfold bind at 1. unfold tfidf.truediv at 1. rewrite Hn.
  unfold ret at 1 2. unfold bind at 1. rewrite IH. reflexivity.
Qed.

Section TfidfWeights.

Variable math_log : Q -> Q.
Variable math_sqrt : Q -> Q.

Lemma tfidfs_of_counter (tokens : list string) (s : tfidf.TFIDFVectorizer) :
  exists d,
    tfidf.foldM (tfidf.tfidf_of math_log (tfidf.total (vectorize.counter tokens)))
      (vectorize.counter tokens) [] s
    = (Ok (raw_tfidfs math_log s tokens), tfidf.set_dfs d s).
Proof.
  unfold raw_tfidfs.
  assert (Ht : tfidf.total (vectorize.counter tokens) = length tokens)
    by (unfold vectorize.counter; rewrite total_counter; reflexivity).
  rewrite Ht. destruct tokens as [| t tokens].
  - exists (tfidf.dfs s). destruct s; reflexivity.
  - destruct (tfidf_loop math_log (length (t :: tokens)) (vectorize.counter (t :: tokens))
                ltac:(discriminate) [] s) as [d [E _]].
    exists d. rewrite E. rewrite fold_assign; [reflexivity | | intros k _ []].
    unfold vectorize.counter. apply (keys_counter (t :: tokens) [] (NoDup_nil _)).
Qed.

Lemma tfidf_transform_one_run (text : string) (s : tfidf.TFIDFVectorizer) :
  vectorize.on (tfidf.mixin s) = None ->
  vectorize.on (tfidf.tfs s) = None ->
  let tokens := vectorize.tokenizer (tfidf.tfs s)
                  (vectorize.preprocessor (tfidf.tfs s) text) in
  let norm := math_sqrt (Qsum (map (fun item => snd item ^ 2) (raw_tfidfs math_log s tokens))) in
  fst (tfidf.transform_one math_log math_sqrt (vectorize.Str text) s)
  = if tfidf.normalize s
    then fst (mapM (fun item => v <- tfidf.truediv (snd item) norm ;; ret (fst item, v))
                (raw_tfidfs math_log s tokens) s)
    else Ok (raw_tfidfs math_log s tokens).
Proof.
  intros Hm Ht tokens norm.
  destruct (tfidfs_of_counter tokens s) as [d E].
  unfold tfidf.transform_one. unfold bind at 1. rewrite (tfidf_get_text_plain text s Hm).
  unfold bind at 1. unfold zoom. rewrite (transform_one_text _ text Ht), set_tfs_same.
  fold tokens. unfold tfidf.compute_tfidfs. unfold bind at 1. rewrite E.
  unfold bind at 1. unfold gets at 1. cbn [tfidf.normalize tfidf.set_dfs].
  destruct (tfidf.normalize s); [| reflexivity].
  fold norm. destruct (Qeq_bool norm 0) eqn:En.
  - destruct (raw_tfidfs math_log s tokens) as [| item items]; [reflexivity |].
    cbn [mapM]. unfold bind, tfidf.truediv. rewrite En. reflexivity.
  - rewrite !normalise_run by exact En. reflexivity.
Qed.

(** X10. With no [on] and [normalize=False], [transform_one] gives a text one
    weight per distinct token, in order of first occurrence: the share of the
    token among the tokens of the text, times one plus the logarithm of
    [(1 + n) / (1 + df)], [df] being the document frequency of the token;
    it raises nothing, also on a text without tokens. *)
Theorem tfidf_transform_one_weights (text : string) (s : tfidf.TFIDFVectorizer) :
  vectorize.on (tfidf.mixin s) = None ->
  vectorize.on (tfidf.tfs s) = None ->
  tfidf.normalize s = false ->
  let tokens := vectorize.tokenizer (tfidf.tfs s)
                  (vectorize.preprocessor (tfidf.tfs s) text) in
  fst (tfidf.transform_one math_log math_sqrt (vectorize.Str text) s)
  = Ok (map (fun item =>
               (fst item,
                np.of_nat (snd item) / np.of_nat (length tokens)
                * (math_log (np.of_nat (1 + tfidf.n s)
                             / np.of_nat (1 + count_of (tfidf.dfs s) (fst item))) + 1)))
          (vectorize.counter tokens)).
Proof.
  intros Hm Ht Hn tokens.
  rewrite (tfidf_transform_one_run text s Hm Ht), Hn. reflexivity.
Qed.

Lemma Qsum_squares_scaled (norm : Q) (l : list (string * Q)) :
  ~ norm == 0 ->
  Qsum (map (fun item => snd item ^ 2)
          (map (fun item => (fst item, snd item / norm)) l))
  == Qsum (map (fun item => snd item ^ 2) l) / (norm * norm).
Proof.
  intros Hn. induction l as [| item l IH]; cbn [map].
  - unfold Qsum; cbn. field. exact Hn.
  - rewrite !Qsum_cons, IH. cbn [fst snd]. unfold Qpower. cbn. field. exact Hn.
Qed.

(** X11. With no [on] and [normalize=True], when the norm computed is not
    zero, [transform_one] returns the weights each divided by the norm, for
    the same terms in the same order: the squares of the weights returned,
    times the square of the norm, add up to the squares of the weights before
    normalisation.  The arithmetic is exact and [math.sqrt] is whatever the
    library computes: the squares returned add up to one as far as the norm
    is the square root. *)
Theorem tfidf_transform_one_normalised (text : string) (s : tfidf.TFIDFVectorizer) :
  vectorize.on (tfidf.mixin s) = None ->
  vectorize.on (tfidf.tfs s) = None ->
  tfidf.normalize s = true ->
  let tokens := vectorize.tokenizer (tfidf.tfs s)
                  (vectorize.preprocessor (tfidf.tfs s) text) in
  let squares := Qsum (map (fun item => snd item ^ 2) (raw_tfidfs math_log s tokens)) in
  let norm := math_sqrt squares in
  ~ norm == 0 ->
  exists r,
    fst (tfidf.transform_one math_log math_sqrt (vectorize.Str text) s) = Ok r
    /\ r = map (fun item => (fst item, snd item / norm)) (raw_tfidfs math_log s tokens)
    /\ map fst r = map fst (vectorize.counter tokens)
    /\ Qsum (map (fun item => snd item ^ 2) r) * (norm * norm) == squares.
Proof.
  intros Hm Ht Hn tokens squares norm Hnz.
  exists (map (fun item => (fst item, snd item / norm)) (raw_tfidfs math_log s tokens)).
  split.
  - rewrite (tfidf_transform_one_run text s Hm Ht), Hn. fold tokens. fold squares.
    fold norm. rewrite normalise_run by (apply Qeq_bool_false; exact Hnz). reflexivity.
  - split; [reflexivity |]. split.
    + unfold raw_tfidfs. rewrite !map_map. reflexivity.
    + rewrite (Qsum_squares_scaled _ _ Hnz). fold squares. field. exact Hnz.
Qed.

End TfidfWeights.

(** A fresh instance without normalisation, and the text of a famous line. *)
Lemma tfidf_transform_one_weights_witness :
  let s := tfidf.__init__ (fun text => text) None true true None None false in
  vectorize.on (tfidf.mixin s) = None
  /\ vectorize.on (tfidf.tfs s) = None
  /\ tfidf.normalize s = false
  /\ exists r,
       fst (tfidf.transform_one (fun _ => 0) (fun q => q)
              (vectorize.Str "To be or not to be") s) = Ok r
       /\ map fst r = ["to"; "be"; "or"; "not"]
       /\ Forall2 Qeq (map snd r) [1 # 3; 1 # 3; 1 # 6; 1 # 6].
Proof.
  intros s. split; [reflexivity |]. split; [reflexivity |]. split; [reflexivity |].
  eexists. split.
  - apply (tfidf_transform_one_weights (fun _ => 0) (fun q => q) "To be or not to be" s);
      reflexivity.
  - split; [reflexivity |]. repeat constructor; reflexivity.
Defined.

(** A fresh instance with normalisation and a document of two terms, each of
    weight 1/2: the squares add up to 1/2, whose square root, 0.7071..., is
    given to three places. *)
Lemma tfidf_transform_one_normalised_witness :
  let s := tfidf.__init__ (fun text => text) None true true None None true in
  vectorize.on (tfidf.mixin s) = None
  /\ vectorize.on (tfidf.tfs s) = None
  /\ tfidf.normalize s = true
  /\ exists r,
       fst (tfidf.transform_one (fun _ => 0) (fun _ => 707 # 1000)
              (vectorize.Str "to be") s) = Ok r
       /\ map fst r = ["to"; "be"]
       /\ Forall2 Qeq (map snd r) [500 # 707; 500 # 707]
       /\ Qsum (map (fun item => snd item ^ 2) r) * ((707 # 1000) * (707 # 1000)) == 1 # 2.
Proof.
  intros s. split; [reflexivity |]. split; [reflexivity |]. split; [reflexivity |].
  destruct (tfidf_transform_one_normalised (fun _ => 0) (fun _ => 707 # 1000) "to be" s)
    as [r [Hr [Hval [Hk Hsq]]]];
    [reflexivity | reflexivity | reflexivity | intros E; vm_compute in E; discriminate E |].
  exists r. split; [exact Hr |]. split; [rewrite Hk; reflexivity |].
  split; [rewrite Hval; repeat constructor; reflexivity |].
  rewrite Hsq. reflexivity.
Defined.

(** ** More on [predict_one] *)

Section Answers.

Variable pnorm : Q -> vec -> Q.

#[local] Abbreviation window_of s :=
  (base_neighbors.data_window (knn_regressor.base (knn_regressor.self s))).
#[local] Abbreviation n_neighbors_of s :=
  (base_neighbors.n_neighbors (knn_regressor.base (knn_regressor.self s))).
#[local] Abbreviation method_of s := (knn_regressor.aggregation_method (knn_regressor.self s)).

(** X12. When [predict_one] answers [None] it has changed nothing at all: it
    returns before it looks at the features of [x], so their names are not
    registered. *)
Theorem predict_one_none_untouched (x : dict) (s : knn_regressor.World) :
  fst (knn_regressor.predict_one pnorm x s) = Ok None ->
  snd (knn_regressor.predict_one pnorm x s) = s.
Proof.
  destruct (window_of s) as [w |] eqn:Hw.
  - destruct (Z.lt_ge_cases (Z.of_nat (window.size w)) (n_neighbors_of s)) as [H | H].
    + rewrite (predict_one_short pnorm x s w Hw H). reflexivity.
    + rewrite (predict_one_run pnorm x s w Hw H). cbn [fst].
      destruct (aggregate _ _ _); discriminate.
  - rewrite (predict_one_no_window pnorm x s Hw). reflexivity.
Qed.

End Answers.

Lemma predict_one_none_untouched_witness :
  let s := engine 2 3 "mean" in
  fst (knn_regressor.predict_one (fun _ => index.norm1) [("g", 1)] s) = Ok None
  /\ snd (knn_regressor.predict_one (fun _ => index.norm1) [("g", 1)] s) = s.
Proof.
  intros s. split; [reflexivity |].
  apply (predict_one_none_untouched (fun _ => index.norm1) [("g", 1)] s). reflexivity.
Defined.

(** ** Predictions stay among the targets *)

Lemma of_nat_S (k : nat) : np.of_nat (S k) == np.of_nat k + 1.
Proof.
  unfold np.of_nat. rewrite Nat2Z.inj_succ, <- Z.add_1_r, inject_Z_plus. reflexivity.
Qed.

Lemma of_nat_pos (k : nat) : k <> 0%nat -> 0 < np.of_nat k.
Proof. intros Hk. unfold np.of_nat, Qlt. cbn. lia. Qed.

Lemma Qsum_between (lo hi : Q) (l : list Q) :
  Forall (fun t => lo <= t <= hi) l ->
  np.of_nat (length l) * lo <= Qsum l <= np.of_nat (length l) * hi.
Proof.
  induction 1 as [| t l [Hlo Hhi] _ [IHlo IHhi]].
  - cbn [length]. change (np.of_nat 0) with 0. change (Qsum []) with 0. lra.
  - cbn [length]. rewrite Qsum_cons, of_nat_S.
    assert (E1 : (np.of_nat (length l) + 1) * lo == np.of_nat (length l) * lo + lo) by ring.
    assert (E2 : (np.of_nat (length l) + 1) * hi == np.of_nat (length l) * hi + hi) by ring.
    rewrite E1, E2. lra.
Qed.

Lemma mean_between (lo hi : Q) (l : list Q) :
  l <> [] -> Forall (fun t => lo <= t <= hi) l ->
  exists m, np.mean l = Fin m /\ lo <= m <= hi.
Proof.
  intros Hne Hl.
  assert (Hlen : length l <> 0%nat) by (destruct l; [congruence | discriminate]).
  exists (Qsum l / np.of_nat (length l)). split.
  - unfold np.mean. rewrite fsum_Fin. cbn [fdiv].
    rewrite (of_nat_not_zero _ Hlen). reflexivity.
  - destruct (Qsum_between lo hi l Hl) as [H1 H2].
    pose proof (of_nat_pos _ Hlen) as Hpos. split.
    + apply Qle_shift_div_l; [exact Hpos | lra].
    + apply Qle_shift_div_r; [exact Hpos | lra].
Qed.

Lemma insert_sorted_perm (x : Q) (l : list Q) :
  Permutation (np.insert_sorted x l) (x :: l).
Proof.
  induction l as [| y l IH]; cbn [np.insert_sorted].
  - apply Permutation_refl.
  - destruct (Qle_bool x y); [apply Permutation_refl |].
    apply perm_trans with (y :: x :: l); [apply perm_skip; exact IH | apply perm_swap].
Qed.

Lemma sort_perm (l : list Q) : Permutation (np.sort l) l.
Proof.
  induction l as [| x l IH]; cbn; [apply perm_nil |].
  apply perm_trans with (x :: np.sort l);
    [apply insert_sorted_perm | apply perm_skip; exact IH].
Qed.

Lemma median_between (lo hi : Q) (l : list Q) :
  l <> [] -> Forall (fun t => lo <= t <= hi) l ->
  exists m, np.median l = Fin m /\ lo <= m <= hi.
Proof.
  intros Hne Hl.
  assert (Hs : Forall (fun t => lo <= t <= hi) (np.sort l)).
  { apply Forall_forall. intros t Ht. rewrite Forall_forall in Hl. apply Hl.
    apply (Permutation_in _ (sort_perm l)). exact Ht. }
  assert (Hlen : length (np.sort l) <> 0%nat).
  { rewrite (Permutation_length (sort_perm l)). destruct l; [congruence | discriminate]. }
  assert (Hnth : forall i, (i < length (np.sort l))%nat ->
                           lo <= nth i (np.sort l) 0 <= hi).
  { intros i Hi. rewrite Forall_forall in Hs. apply Hs. apply nth_In. exact Hi. }
  unfold np.median.
  destruct (length (np.sort l) =? 0)%nat eqn:E0; [apply Nat.eqb_eq in E0; contradiction |].
  assert (Hhalf : (length (np.sort l) / 2 < length (np.sort l))%nat)
    by (apply Nat.div_lt; lia).
  destruct (Nat.odd (length (np.sort l))).
  - eexists. split; [reflexivity |]. apply Hnth. exact Hhalf.
  - apply mean_between; [discriminate |].
    constructor; [apply Hnth; lia |]. constructor; [apply Hnth; exact Hhalf | constructor].
Qed.

Lemma targets_at_members (P : Q -> Prop) (w : window.Window) (idx : list nat) :
  Forall P (window.targets_buffer w) ->
  Forall (fun i => (i < length (window.features_buffer w))%nat) idx ->
  Forall P (targets_at w idx).
Proof.
  intros HP Hidx. unfold targets_at. apply Forall_forall. intros t Ht.
  apply in_map_iff in Ht. destruct Ht as [i [<- Hi]].
  rewrite Forall_forall in HP, Hidx. apply HP. apply nth_In.
  specialize (Hidx i Hi). unfold window.targets_buffer, window.features_buffer in *.
  rewrite length_map in *. exact Hidx.
Qed.

Section Range.

Variable pnorm : Q -> vec -> Q.

#[local] Abbreviation window_of s :=
  (base_neighbors.data_window (knn_regressor.base (knn_regressor.self s))).
#[local] Abbreviation n_neighbors_of s :=
  (base_neighbors.n_neighbors (knn_regressor.base (knn_regressor.self s))).
#[local] Abbreviation method_of s := (knn_regressor.aggregation_method (knn_regressor.self s)).

Lemma retrieved_targets (P : Q -> Prop) (x : dict) (s : knn_regressor.World)
  (w : window.Window) :
  Forall P (window.targets_buffer w) ->
  Forall P (targets_at w (snd (retrieved pnorm x s w))).
Proof.
  intros HP. apply targets_at_members; [exact HP |]. apply query_in_range.
Qed.

(** X13. In exact arithmetic (the sums and divisions of [np.mean] and
    [np.median] neither rounded nor overflowing), under the mean and under
    the median a prediction is a finite number that lies between the least
    and the greatest target stored in the window. *)
Theorem predict_one_between (x : dict) (s : knn_regressor.World) (w : window.Window)
  (lo hi : Q) :
  window_of s = Some w ->
  method_of s = knn_regressor._MEAN \/ method_of s = knn_regressor._MEDIAN ->
  (0 < n_neighbors_of s)%Z ->
  (n_neighbors_of s <= Z.of_nat (window.size w))%Z ->
  Forall (fun t => lo <= t <= hi) (window.targets_buffer w) ->
  exists v,
    fst (knn_regressor.predict_one pnorm x s) = Ok (Some (Fin v)) /\ lo <= v <= hi.
Proof.
  intros Hw Hm Hpos Hge Hall.
  destruct (retrieved_lengths pnorm x s w Hpos Hge) as [Hlen Hne].
  assert (Hvals : targets_at w (snd (retrieved pnorm x s w)) <> []).
  { intros E. apply Hne. apply length_zero_iff_nil. rewrite <- Hlen, E. reflexivity. }
  pose proof (retrieved_targets _ x s w Hall) as Hin.
  rewrite (predict_one_run pnorm x s w Hw Hge). cbn [fst]. unfold aggregate.
  destruct Hm as [Hm | Hm]; rewrite Hm.
  - destruct (mean_between lo hi _ Hvals Hin) as [m [E Hb]].
    exists m. cbn [String.eqb knn_regressor._MEAN Ascii.eqb Bool.eqb and_then].
    rewrite E. split; [reflexivity | exact Hb].
  - destruct (median_between lo hi _ Hvals Hin) as [m [E Hb]].
    exists m. cbn [String.eqb knn_regressor._MEAN knn_regressor._MEDIAN
                   Ascii.eqb Bool.eqb and_then].
    rewrite E. split; [reflexivity | exact Hb].
Qed.

End Range.

Lemma predict_one_between_witness :
  let s := feed four_samples (engine 2 3 "median") in
  base_neighbors.data_window (knn_regressor.base (knn_regressor.self s))
  = Some three_entries
  /\ Forall (fun t => 20 <= t <= 40) (window.targets_buffer three_entries)
  /\ exists v,
       fst (knn_regressor.predict_one (fun _ => index.norm1) [("f", 100)] s)
       = Ok (Some (Fin v))
       /\ 20 <= v <= 40.
Proof.
  intros s.
  assert (Hall : Forall (fun t => 20 <= t <= 40) (window.targets_buffer three_entries)).
  { repeat constructor; cbn; discriminate. }
  split; [reflexivity |]. split; [exact Hall |].
  apply (predict_one_between (fun _ => index.norm1) [("f", 100)] s three_entries 20 40);
    [reflexivity | right; reflexivity | reflexivity | cbn; lia | exact Hall].
Defined.

(** ** The weighted mean in closed form *)

Lemma Qsum_nonneg (l : list Q) : Forall (fun d => 0 <= d) l -> 0 <= Qsum l.
Proof.
  induction 1 as [| d l Hd _ IH].
  - change (Qsum []) with 0. lra.
  - rewrite Qsum_cons. lra.
Qed.

Lemma member_le_Qsum (l : list Q) (d : Q) :
  Forall (fun d => 0 <= d) l -> In d l -> d <= Qsum l.
Proof.
  induction 1 as [| d' l Hd Hl IH]; intros Hin; [contradiction |].
  rewrite Qsum_cons. pose proof (Qsum_nonneg l Hl) as Hs.
  destruct Hin as [-> | Hin]; [lra | specialize (IH Hin); lra].
Qed.

Lemma weighted_between (lo hi : Q) (ts ws : list Q) :
  length ts = length ws ->
  Forall (fun t => lo <= t <= hi) ts -> Forall (fun w => 0 <= w) ws ->
  lo * Qsum ws <= Qsum (np.zip_with Qmult ts ws) <= hi * Qsum ws.
Proof.
  intros Hlen Hts. revert ws Hlen.
  induction Hts as [| t ts [Hlo Hhi] _ IH]; intros [| w ws] Hlen Hws;
    try discriminate; cbn [np.zip_with].
  - change (Qsum []) with 0. lra.
  - inversion Hws as [| ? ? Hw Hws']; subst.
    destruct (IH ws ltac:(cbn in Hlen; lia) Hws') as [IH1 IH2].
    rewrite !Qsum_cons.
    assert (H1 : lo * w <= t * w) by (apply Qmult_le_compat_r; assumption).
    assert (H2 : t * w <= hi * w) by (apply Qmult_le_compat_r; assumption).
    assert (E1 : lo * (w + Qsum ws) == lo * w + lo * Qsum ws) by ring.
    assert (E2 : hi * (w + Qsum ws) == hi * w + hi * Qsum ws) by ring.
    rewrite E1, E2. lra.
Qed.

Lemma raw_weights_total (dists : list Q) :
  ~ Qsum dists == 0 -> Qsum (raw_weights dists) == np.of_nat (length dists) - 1.
Proof.
  intros Hnz. unfold raw_weights. rewrite Qsum_raw.
  assert (E : Qsum dists / Qsum dists == 1) by (field; exact Hnz).
  rewrite E. reflexivity.
Qed.

Lemma of_nat_two (k : nat) : (2 <= k)%nat -> 1 <= np.of_nat k - 1.
Proof.
  intros Hk. unfold np.of_nat, Qle, Qminus, Qplus, Qopp. cbn. lia.
Qed.

Lemma spec_weights_nonneg (dists : list Q) :
  Forall (fun d => 0 <= d) dists -> ~ Qsum dists == 0 -> (2 <= length dists)%nat ->
  Forall (fun w => 0 <= w) (spec_weights dists).
Proof.
  intros Hd Hnz Hk.
  pose proof (Qsum_nonneg _ Hd) as Hs.
  assert (Hpos : 0 < Qsum dists).
  { destruct (Qlt_le_dec 0 (Qsum dists)) as [H | H]; [exact H |].
    exfalso. apply Hnz. lra. }
  pose proof (raw_weights_total dists Hnz) as HR.
  pose proof (of_nat_two _ Hk) as Hone.
  unfold spec_weights. apply Forall_forall. intros w Hw.
  apply in_map_iff in Hw. destruct Hw as [r [<- Hr]].
  unfold raw_weights in Hr. apply in_map_iff in Hr. destruct Hr as [d [<- Hin]].
  fold (raw_weights dists).
  assert (Hle : d / Qsum dists <= 1).
  { apply Qle_shift_div_r; [exact Hpos |].
    pose proof (member_le_Qsum _ _ Hd Hin). lra. }
  apply Qle_shift_div_l; lra.
Qed.

Lemma closed_form (R S : Q) (ts ds : list Q) :
  ~ R == 0 -> ~ S == 0 ->
  Qsum (np.zip_with Qmult ts (map (fun r => r / R) (map (fun d => 1 - d / S) ds)))
  == Qsum (np.zip_with (fun t d => t * (S - d)) ts ds) / (R * S).
Proof.
  intros HR HS. revert ds.
  induction ts as [| t ts IH]; intros [| d ds]; cbn [np.zip_with map];
    try (change (Qsum []) with 0; field; split; assumption).
  rewrite !Qsum_cons, IH. field. split; assumption.
Qed.

Lemma query_nonneg (pnorm : Q -> vec -> Q) (p : Q) (X : list vec) (x : vec) (k : nat) :
  (forall q v, 0 <= pnorm q v) ->
  Forall (fun d => 0 <= d) (fst (index.query pnorm p X x k)).
Proof.
  intros Hp. unfold index.query. cbn [fst]. apply Forall_forall. intros d Hd.
  apply in_map_iff in Hd. destruct Hd as [[d' i] [E Hin]]. cbn in E. subst d'.
  apply in_firstn in Hin. apply (Permutation_in _ (rank_perm _)) in Hin.
  apply in_combine_l in Hin. unfold index.distances in Hin.
  apply in_map_iff in Hin. destruct Hin as [v [<- _]]. apply Hp.
Qed.

Section Weighted.

Variable pnorm : Q -> vec -> Q.

#[local] Abbreviation window_of s :=
  (base_neighbors.data_window (knn_regressor.base (knn_regressor.self s))).
#[local] Abbreviation n_neighbors_of s :=
  (base_neighbors.n_neighbors (knn_regressor.base (knn_regressor.self s))).
#[local] Abbreviation method_of s := (knn_regressor.aggregation_method (knn_regressor.self s)).

(** What the weighted mean returns when it can renormalise its weights. *)
Lemma weighted_run (x : dict) (s : knn_regressor.World) (w : window.Window) :
  window_of s = Some w ->
  method_of s = knn_regressor._WEIGHTED_MEAN ->
  (2 <= n_neighbors_of s)%Z ->
  (n_neighbors_of s <= Z.of_nat (window.size w))%Z ->
  ~ Qsum (fst (retrieved pnorm x s w)) == 0 ->
  (2 <= length (fst (retrieved pnorm x s w)))%nat
  /\ length (targets_at w (snd (retrieved pnorm x s w)))
     = length (fst (retrieved pnorm x s w))
  /\ exists v,
       fst (knn_regressor.predict_one pnorm x s) = Ok (Some (Fin v))
       /\ v == spec_weighted_mean (fst (retrieved pnorm x s w))
                 (targets_at w (snd (retrieved pnorm x s w)))
       /\ Qsum (spec_weights (fst (retrieved pnorm x s w))) == 1.
Proof.
  intros Hw Hm Hn Hge Hnz.
  assert (Hpos : (0 < n_neighbors_of s)%Z) by lia.
  destruct (retrieved_lengths pnorm x s w Hpos Hge) as [Hlen Hne].
  assert (Hk : (2 <= length (fst (retrieved pnorm x s w)))%nat).
  { unfold retrieved.
    destruct (query_length pnorm (base_neighbors.p (knn_regressor.base (knn_regressor.self s)))
                (window.features_buffer w) (query_vector x s)
                (Z.to_nat (n_neighbors_of s))) as [Hd _].
    rewrite Hd. unfold window.features_buffer, window.size in *.
    rewrite length_map. lia. }
  split; [exact Hk |]. split; [exact Hlen |].
  destruct (average_regular _ _ Hlen Hnz (raw_weights_sum _ Hnz Hk))
    as [v [Hv [Hspec Hone]]].
  exists v. split; [| split; assumption].
  rewrite (predict_one_run pnorm x s w Hw Hge). cbn [fst].
  unfold aggregate. rewrite Hm. cbn [String.eqb knn_regressor._WEIGHTED_MEAN
    knn_regressor._MEAN knn_regressor._MEDIAN Ascii.eqb Bool.eqb].
  rewrite Hv. reflexivity.
Qed.

(** X14. Under the weighted mean, with two neighbours or more at distances
    [d_i] of sum [S], not zero, the prediction is the sum of the
    [t_i * (S - d_i)] over [(k - 1) * S]: a neighbour weighs the share of the
    total distance that is not its own, out of [k - 1]. *)
Theorem weighted_mean_closed_form (x : dict) (s : knn_regressor.World)
  (w : window.Window) :
  window_of s = Some w ->
  method_of s = knn_regressor._WEIGHTED_MEAN ->
  (2 <= n_neighbors_of s)%Z ->
  (n_neighbors_of s <= Z.of_nat (window.size w))%Z ->
  let dists := fst (retrieved pnorm x s w) in
  let targets := targets_at w (snd (retrieved pnorm x s w)) in
  ~ Qsum dists == 0 ->
  exists v,
    fst (knn_regressor.predict_one pnorm x s) = Ok (Some (Fin v))
    /\ v == Qsum (np.zip_with (fun t d => t * (Qsum dists - d)) targets dists)
            / ((np.of_nat (length dists) - 1) * Qsum dists).
Proof.
  intros Hw Hm Hn Hge dists targets Hnz.
  destruct (weighted_run x s w Hw Hm Hn Hge Hnz) as [Hk [_ [v [Hv [Hspec _]]]]].
  exists v. split; [exact Hv |].
  rewrite Hspec. unfold spec_weighted_mean, spec_weights. fold dists targets.
  unfold raw_weights at 2.
  rewrite closed_form; [| exact (raw_weights_sum _ Hnz Hk) | exact Hnz].
  rewrite (raw_weights_total _ Hnz). reflexivity.
Qed.

(** X15. Under the weighted mean, when no distance is negative, two
    neighbours or more are retrieved and their distances do not sum to zero,
    the prediction lies between the least and the greatest target stored in
    the window. *)
Theorem weighted_mean_between (x : dict) (s : knn_regressor.World)
  (w : window.Window) (lo hi : Q) :
  (forall q v, 0 <= pnorm q v) ->
  window_of s = Some w ->
  method_of s = knn_regressor._WEIGHTED_MEAN ->
  (2 <= n_neighbors_of s)%Z ->
  (n_neighbors_of s <= Z.of_nat (window.size w))%Z ->
  ~ Qsum (fst (retrieved pnorm x s w)) == 0 ->
  Forall (fun t => lo <= t <= hi) (window.targets_buffer w) ->
  exists v,
    fst (knn_regressor.predict_one pnorm x s) = Ok (Some (Fin v)) /\ lo <= v <= hi.
Proof.
  intros Hp Hw Hm Hn Hge Hnz Hall.
  destruct (weighted_run x s w Hw Hm Hn Hge Hnz) as [Hk [Hlen [v [Hv [Hspec Hone]]]]].
  exists v. split; [exact Hv |].
  assert (Hd : Forall (fun d => 0 <= d) (fst (retrieved pnorm x s w)))
    by (apply query_nonneg; exact Hp).
  pose proof (spec_weights_nonneg _ Hd Hnz Hk) as Hws.
  pose proof (retrieved_targets pnorm _ x s w Hall) as Hts.
  assert (Hlen' : length (targets_at w (snd (retrieved pnorm x s w)))
                  = length (spec_weights (fst (retrieved pnorm x s w)))).
  { unfold spec_weights, raw_weights. rewrite !length_map. exact Hlen. }
  destruct (weighted_between lo hi _ _ Hlen' Hts Hws) as [H1 H2].
  unfold spec_weighted_mean in Hspec.
  generalize dependent (Qsum (np.zip_with Qmult (targets_at w (snd (retrieved pnorm x s w)))
                                (spec_weights (fst (retrieved pnorm x s w))))).
  generalize dependent (Qsum (spec_weights (fst (retrieved pnorm x s w)))).
  intros total Hone prediction Hspec H1 H2.
  assert (E1 : lo * total == lo) by (rewrite Hone; ring).
  assert (E2 : hi * total == hi) by (rewrite Hone; ring).
  rewrite E1 in H1. rewrite E2 in H2. rewrite Hspec. split; assumption.
Qed.

End Weighted.

Lemma norm1_nonneg (v : vec) : 0 <= index.norm1 v.
Proof.
  unfold index.norm1. apply Qsum_nonneg. apply Forall_forall. intros d Hd.
  apply in_map_iff in Hd. destruct Hd as [a [<- _]]. apply Qabs_nonneg.
Qed.

(** Neighbours at distances 1 and 3, of targets 10 and 20. *)
Lemma weighted_mean_closed_form_witness :
  let s := feed two_samples (engine 2 3 "weighted_mean") in
  base_neighbors.data_window (knn_regressor.base (knn_regressor.self s))
  = Some two_entries
  /\ ~ Qsum (fst (retrieved (fun _ => index.norm1) [("f", 1)] s two_entries)) == 0
  /\ exists v,
       fst (knn_regressor.predict_one (fun _ => index.norm1) [("f", 1)] s)
       = Ok (Some (Fin v))
       /\ v == (10 * 3 + 20 * 1) / (1 * 4).
Proof.
  intros s.
  assert (Hnz : ~ Qsum (fst (retrieved (fun _ => index.norm1) [("f", 1)] s two_entries)) == 0).
  { intros E. vm_compute in E. discriminate E. }
  split; [reflexivity |]. split; [exact Hnz |].
  destruct (weighted_mean_closed_form (fun _ => index.norm1) [("f", 1)] s two_entries)
    as [v [Hv Hval]]; [reflexivity | reflexivity | reflexivity | | exact Hnz |].
  { vm_compute. discriminate. }
  exists v. split; [exact Hv |]. rewrite Hval. reflexivity.
Defined.

Lemma weighted_mean_between_witness :
  let s := feed two_samples (engine 2 3 "weighted_mean") in
  (forall (q : Q) (v : vec), 0 <= index.norm1 v)
  /\ base_neighbors.data_window (knn_regressor.base (knn_regressor.self s))
     = Some two_entries
  /\ Forall (fun t => 10 <= t <= 20) (window.targets_buffer two_entries)
  /\ exists v,
       fst (knn_regressor.predict_one (fun _ => index.norm1) [("f", 1)] s)
       = Ok (Some (Fin v))
       /\ 10 <= v <= 20.
Proof.
  intros s.
  assert (Hall : Forall (fun t => 10 <= t <= 20) (window.targets_buffer two_entries)).
  { repeat constructor; cbn; discriminate. }
  split; [intros _; exact norm1_nonneg |]. split; [reflexivity |]. split; [exact Hall |].
  apply (weighted_mean_between (fun _ => index.norm1) [("f", 1)] s two_entries 10 20);
    [intros _; exact norm1_nonneg | reflexivity | reflexivity | reflexivity
     | vm_compute; discriminate | intros E; vm_compute in E; discriminate E | exact Hall].
Defined.

(** ** The mean over the whole window *)

Lemma Qsum_Permutation (l l' : list Q) : Permutation l l' -> Qsum l == Qsum l'.
Proof.
  induction 1 as [| a l l' _ IH | a b l | l l' l'' _ IH1 _ IH2].
  - reflexivity.
  - rewrite !Qsum_cons, IH. reflexivity.
  - rewrite !Qsum_cons. ring.
  - rewrite IH1. exact IH2.
Qed.

Lemma map_snd_combine {A B} (l : list A) (l' : list B) :
  length l = length l' -> map snd (combine l l') = l'.
Proof.
  revert l'. induction l as [| a l IH]; intros [| b l'] H; try discriminate; cbn.
  - reflexivity.
  - rewrite IH by (cbn in H; lia). reflexivity.
Qed.

Lemma map_nth_seq (l : list Q) (start : nat) (prefix : list Q) :
  length prefix = start ->
  map (fun i => nth i (prefix ++ l) 0) (seq start (length l)) = l.
Proof.
  revert start prefix. induction l as [| a l IH]; intros start prefix Hp; cbn [length seq map].
  - reflexivity.
  - rewrite app_nth2 by lia. rewrite Hp, Nat.sub_diag. cbn [nth]. f_equal.
    change (prefix ++ a :: l) with (prefix ++ [a] ++ l). rewrite app_assoc.
    apply IH. rewrite length_app. cbn. lia.
Qed.

Section WholeWindow.

Variable pnorm : Q -> vec -> Q.

(** With as many neighbours as entries, every entry is retrieved once. *)
Lemma retrieved_all (x : dict) (s : knn_regressor.World) (w : window.Window) :
  Z.to_nat (base_neighbors.n_neighbors (knn_regressor.base (knn_regressor.self s)))
  = window.size w ->
  Permutation (targets_at w (snd (retrieved pnorm x s w))) (window.targets_buffer w).
Proof.
  intros Hk. unfold retrieved, index.query. cbn [snd]. rewrite Hk.
  set (ranked := index.rank _).
  assert (Hlen : length ranked = window.size w).
  { unfold ranked. rewrite rank_length, length_combine, distances_length, length_seq.
    unfold window.features_buffer, window.size. rewrite length_map. lia. }
  rewrite firstn_all2 by lia.
  assert (Hperm : Permutation (map snd ranked) (seq 0 (window.size w))).
  { unfold ranked. apply perm_trans with (map snd (combine
      (index.distances pnorm
         (base_neighbors.p (knn_regressor.base (knn_regressor.self s)))
         (window.features_buffer w) (query_vector x s))
      (seq 0 (length (window.features_buffer w))))).
    - apply Permutation_map. apply rank_perm.
    - rewrite map_snd_combine by (rewrite distances_length, length_seq; reflexivity).
      unfold window.features_buffer, window.size. rewrite length_map.
      apply Permutation_refl. }
  unfold targets_at.
  apply perm_trans with (map (fun i => nth i (window.targets_buffer w) 0)
                           (seq 0 (window.size w))).
  - apply Permutation_map. exact Hperm.
  - replace (window.size w) with (length (window.targets_buffer w))
      by (unfold window.targets_buffer, window.size; apply length_map).
    pose proof (map_nth_seq (window.targets_buffer w) 0 [] eq_refl) as E.
    cbn [app] in E. rewrite E. apply Permutation_refl.
Qed.

(** X16. In exact arithmetic (the sum and the division of [np.mean] neither
    rounded nor overflowing), under the mean, when [n_neighbors] is the
    number of entries in the window, the prediction is the mean of all the
    targets stored, whatever the query and whatever the distances: these
    decide only the order in which the targets are added up. *)
Theorem predict_one_whole_window (x : dict) (s : knn_regressor.World)
  (w : window.Window) :
  base_neighbors.data_window (knn_regressor.base (knn_regressor.self s)) = Some w ->
  knn_regressor.aggregation_method (knn_regressor.self s) = knn_regressor._MEAN ->
  (0 < base_neighbors.n_neighbors (knn_regressor.base (knn_regressor.self s)))%Z ->
  base_neighbors.n_neighbors (knn_regressor.base (knn_regressor.self s))
  = Z.of_nat (window.size w) ->
  exists v,
    fst (knn_regressor.predict_one pnorm x s) = Ok (Some (Fin v))
    /\ v == Qsum (window.targets_buffer w) / np.of_nat (window.size w).
Proof.
  intros Hw Hm Hpos Hn.
  assert (Hk : Z.to_nat (base_neighbors.n_neighbors
                           (knn_regressor.base (knn_regressor.self s)))
               = window.size w) by lia.
  pose proof (retrieved_all x s w Hk) as Hperm.
  assert (Hsize : window.size w <> 0%nat) by lia.
  assert (Hlen : length (targets_at w (snd (retrieved pnorm x s w))) = window.size w).
  { rewrite (Permutation_length Hperm). unfold window.targets_buffer, window.size.
    apply length_map. }
  exists (Qsum (targets_at w (snd (retrieved pnorm x s w))) / np.of_nat (window.size w)).
  split.
  - rewrite (predict_one_run pnorm x s w Hw) by lia. cbn [fst].
    unfold aggregate. rewrite Hm.
    cbn [String.eqb knn_regressor._MEAN Ascii.eqb Bool.eqb and_then].
    unfold np.mean. rewrite fsum_Fin, Hlen. cbn [fdiv].
    rewrite (of_nat_not_zero _ Hsize). reflexivity.
  - rewrite (Qsum_Permutation _ _ Hperm). reflexivity.
Qed.

End WholeWindow.

Lemma predict_one_whole_window_witness :
  let s := feed four_samples (engine 3 3 "mean") in
  base_neighbors.data_window (knn_regressor.base (knn_regressor.self s))
  = Some three_entries
  /\ exists v,
       fst (knn_regressor.predict_one (fun _ => index.norm1) [("f", 100)] s)
       = Ok (Some (Fin v))
       /\ v == 30.
Proof.
  intros s. split; [reflexivity |].
  destruct (predict_one_whole_window (fun _ => index.norm1) [("f", 100)] s three_entries)
    as [v [Hv Hval]]; [reflexivity | reflexivity | reflexivity | reflexivity |].
  exists v. split; [exact Hv |]. rewrite Hval. reflexivity.
Defined.

(** ** Construction, on the path that succeeds *)

(** X17. With one of the three names for [aggregation_method], the
    constructor returns what the base constructor built, with the name stored
    as given; when the base constructor raises, the constructor raises the
    same exception, whatever the name. *)
Theorem init_valid_method (n c leaf : Z) (p : Q) (method : string) :
  method = "mean" \/ method = "median" \/ method = "weighted_mean" ->
  knn_regressor.__init__ n c leaf p method
  = match base_neighbors.__init__ n c leaf p with
    | Ok b => Ok (knn_regressor.mkKNNRegressor b method)
    | Raise e => Raise e
    end
  /\ forall e other, base_neighbors.__init__ n c leaf p = Raise e ->
                     knn_regressor.__init__ n c leaf p other = Raise e.
Proof.
  intros Hm. split.
  - destruct (base_neighbors.__init__ n c leaf p) as [b | e] eqn:Hb.
    + apply (init_stores_method n c leaf p method b Hb Hm).
    + unfold knn_regressor.__init__. rewrite Hb. reflexivity.
  - intros e other Hb. unfold knn_regressor.__init__. rewrite Hb. reflexivity.
Qed.

Lemma init_valid_method_witness :
  ("median" = "mean" \/ "median" = "median" \/ "median" = "weighted_mean")
  /\ knn_regressor.__init__ 5 1000 30 2 "median"
     = Ok (knn_regressor.mkKNNRegressor
             (base_neighbors.mkBaseNeighbors 5 1000 30 2 (Some (window.empty 1000)))
             "median").
Proof.
  split; [right; left; reflexivity |].
  destruct (init_valid_method 5 1000 30 2 "median") as [H _];
    [right; left; reflexivity |].
  rewrite H. reflexivity.
Defined.

(** ** The ranking leaves no tie to break *)

Lemma before_trans (a b c : Q * nat) : before a b -> before b c -> before a c.
Proof.
  unfold before. intros [H1 | [H1 H1']] [H2 | [H2 H2']].
  - left. lra.
  - left. lra.
  - left. lra.
  - right. split; [lra | lia].
Qed.

Lemma before_asym (a b : Q * nat) : before a b -> before b a -> False.
Proof.
  unfold before. intros [H1 | [H1 H1']] [H2 | [H2 H2']]; try lra. lia.
Qed.

(** Two rankings of the same entries are the same list. *)
Lemma ranking_unique (l1 : list (Q * nat)) :
  forall l2, StronglySorted before l1 -> StronglySorted before l2 ->
             Permutation l1 l2 -> l1 = l2.
Proof.
  induction l1 as [| a l1 IH]; intros l2 H1 H2 Hp.
  - apply Permutation_nil in Hp. congruence.
  - destruct l2 as [| b l2]; [apply Permutation_sym, Permutation_nil in Hp; discriminate |].
    apply StronglySorted_inv in H1. destruct H1 as [Hs1 Ha].
    apply StronglySorted_inv in H2. destruct H2 as [Hs2 Hb].
    rewrite Forall_forall in Ha, Hb.
    assert (E : a = b).
    { assert (Hab : In a (b :: l2)) by (apply (Permutation_in _ Hp); left; reflexivity).
      assert (Hba : In b (a :: l1))
        by (apply (Permutation_in _ (Permutation_sym Hp)); left; reflexivity).
      destruct Hab as [E | Hab]; [congruence |].
      destruct Hba as [E | Hba]; [congruence |].
      exfalso. apply (before_asym a b); [apply Ha | apply Hb]; assumption. }
    subst b. f_equal. apply IH; [exact Hs1 | exact Hs2 |].
    apply (Permutation_cons_inv Hp).
Qed.

(** Inserting an entry older than all those ranked keeps the ranking. *)
Lemma insert_ranked_sorted (e : Q * nat) (l : list (Q * nat)) :
  StronglySorted before l -> Forall (fun e' => (snd e < snd e')%nat) l ->
  StronglySorted before (index.insert_ranked e l).
Proof.
  induction l as [| e' l IH]; intros Hs Hold; cbn [index.insert_ranked].
  - constructor; constructor.
  - apply StronglySorted_inv in Hs. destruct Hs as [Hs He'].
    inversion Hold as [| ? ? Hlt Hold']; subst.
    destruct (Qle_bool (fst e) (fst e')) eqn:E.
    + apply Qle_bool_iff in E.
      assert (Hee' : before e e').
      { unfold before. destruct (Qlt_le_dec (fst e) (fst e')) as [H | H];
          [left; exact H | right; split; [lra | exact Hlt]]. }
      constructor; [constructor; assumption |].
      constructor; [exact Hee' |].
      rewrite Forall_forall in *. intros y Hy.
      apply (before_trans e e' y); [exact Hee' | apply He'; exact Hy].
    + assert (He'e : before e' e).
      { left. destruct (Qlt_le_dec (fst e') (fst e)) as [H | H]; [exact H |].
        apply Qle_bool_iff in H. congruence. }
      constructor; [apply IH; assumption |].
      apply Forall_forall. intros y Hy.
      apply (Permutation_in _ (insert_ranked_perm e l)) in Hy.
      destruct Hy as [<- | Hy]; [exact He'e |].
      rewrite Forall_forall in He'. apply He'. exact Hy.
Qed.

(** Entries given in order of insertion come out ranked. *)
Lemma rank_sorted (l : list (Q * nat)) :
  StronglySorted lt (map snd l) -> StronglySorted before (index.rank l).
Proof.
  induction l as [| e l IH]; intros Hs; cbn [index.rank fold_right].
  - constructor.
  - cbn [map] in Hs. apply StronglySorted_inv in Hs. destruct Hs as [Hs He].
    apply insert_ranked_sorted; [apply IH; exact Hs |].
    apply Forall_forall. intros y Hy.
    apply (Permutation_in _ (rank_perm l)) in Hy.
    rewrite Forall_forall in He. apply He. apply in_map. exact Hy.
Qed.

Lemma seq_sorted (len start : nat) : StronglySorted lt (seq start len).
Proof.
  revert start. induction len as [| len IH]; intros start; cbn [seq]; constructor.
  - apply IH.
  - apply Forall_forall. intros i Hi. apply in_seq in Hi. lia.
Qed.

Section Determinism.

Variable pnorm : Q -> vec -> Q.

(** What the index returns is an answer in the sense of section 4.3. *)
Lemma query_answers (p : Q) (X : list vec) (x : vec) (k : nat) :
  answers pnorm p X x k (index.query pnorm p X x k).
Proof.
  exists (index.rank (combine (index.distances pnorm p X x) (seq 0 (length X)))).
  split; [apply rank_perm |]. split; [| reflexivity].
  apply rank_sorted. rewrite map_snd_combine.
  - apply seq_sorted.
  - rewrite distances_length, length_seq. reflexivity.
Qed.

(** And there is no other. *)
Lemma answers_unique (p : Q) (X : list vec) (x : vec) (k : nat)
  (ans : list Q * list nat) :
  answers pnorm p X x k ans -> ans = index.query pnorm p X x k.
Proof.
  intros [ranked [Hp [Hs ->]]].
  destruct (query_answers p X x k) as [ranked' [Hp' [Hs' E]]].
  rewrite E. rewrite (ranking_unique ranked ranked' Hs Hs'); [reflexivity |].
  apply (perm_trans Hp). apply Permutation_sym. exact Hp'.
Qed.

(** C7. A query repeated with no [learn_one] in between gives what it gave
    the first time, result and state.  The neighbours it retrieves are an
    answer as section 4.3 words one, the stored vectors ranked by distance
    and at equal distance by insertion sequence number, and they are the only
    such answer: the ranking leaves no tie to break, so equal distances
    cannot make two queries differ. *)
Theorem predict_one_deterministic (x : dict) (s : knn_regressor.World) :
  knn_regressor.predict_one pnorm x (snd (knn_regressor.predict_one pnorm x s))
  = knn_regressor.predict_one pnorm x s
  /\ forall w : window.Window,
       let b := knn_regressor.base (knn_regressor.self s) in
       answers pnorm (base_neighbors.p b) (window.features_buffer w) (query_vector x s)
         (Z.to_nat (base_neighbors.n_neighbors b)) (retrieved pnorm x s w)
       /\ forall ans,
            answers pnorm (base_neighbors.p b) (window.features_buffer w)
              (query_vector x s) (Z.to_nat (base_neighbors.n_neighbors b)) ans ->
            ans = retrieved pnorm x s w.
Proof.
  split.
  - destruct (base_neighbors.data_window (knn_regressor.base (knn_regressor.self s)))
      as [w |] eqn:Hw.
    + destruct (Z.lt_ge_cases (Z.of_nat (window.size w))
                  (base_neighbors.n_neighbors (knn_regressor.base (knn_regressor.self s))))
        as [H | H].
      * rewrite (predict_one_short pnorm x s w Hw H). cbn [snd].
        apply (predict_one_short pnorm x s w Hw H).
      * rewrite (predict_one_run pnorm x s w Hw H). cbn [snd].
        rewrite (predict_one_run pnorm x (after_projection x s) w Hw H).
        rewrite retrieved_after_projection, after_projection_idempotent. reflexivity.
    + rewrite (predict_one_no_window pnorm x s Hw). cbn [snd].
      apply (predict_one_no_window pnorm x s Hw).
  - intros w b. split.
    + apply query_answers.
    + intros ans Hans. apply (answers_unique _ _ _ _ _ Hans).
Qed.

End Determinism.
